(** * Manejador de tareas: model of [src/main.py] and its properties

    The program keeps a forest of categories, each with a list of tasks,
    a FIFO queue of urgent tasks and a list of subcategories, together
    with two LIFO histories used by undo ([deshacer]) and redo
    ([rehacer]).

    Python objects are shared by reference: a history record holds the
    very task and category objects it was created with.  The model keeps
    that sharing explicit.

    - Task objects live in a store [objetos]; a task reference is an index
      into it.  Creating an object appends it to the store, so a new
      object is distinct from every existing one.  Nothing is ever
      collected: the store remembers every object that was created.
    - Category objects form a tree.  A category reference is the route
      ([Ruta]) from the root list down to the node: the list of child
      positions.  Categories are only ever appended, so a route keeps
      denoting the same object for the whole run. *)

From stdpp Require Import base list strings.
From Stdlib Require Import ZArith Lia Sorted.

Open Scope Z_scope.
Open Scope list_scope.

(** ** Data model *)

(** Reference to a [Tareas] object: index into the object store. *)
Abbreviation ref := nat (only parsing).

(** Reference to a [Categoria] object: child positions from the root list. *)
Abbreviation Ruta := (list nat) (only parsing).

(** [datetime] values are only stored, copied and compared; a date is
    represented by its proleptic ordinal (as [datetime.toordinal]). *)
Definition datetime := Z.

(** class Tareas *)
Record Tareas := mkTareas {
  tarea_id : Z;
  titulo : string;
  descripcion : string;
  prioridad : Z;
  fecha_vencimiento : datetime
}.

(** class Categoria.  [tareasUrgentes] is a [queue.Queue]: [put] appends at
    the tail, [get] takes the head.  [tareas] is a Python list. *)
#[local] Unset Elimination Schemes.
Inductive Categoria := mkCategoria {
  categoria_id : Z;
  nombre : string;
  subcategorias : list Categoria;
  tareasUrgentes : list ref;
  tareas : list ref
}.
#[local] Set Elimination Schemes.

(** The tuples put on the two histories. *)
Inductive Accion :=
| agregar (tarea : ref) (categoria : Ruta)
| eliminar (tarea : ref) (categoria : Ruta)
| modificar (tarea_anterior tarea_modificada : ref) (categoria : Ruta).

(** class ManejadorTareas.  The two [LifoQueue]s are lists whose head is the
    top of the stack: [put] is a cons, [get] removes the head. *)
Record ManejadorTareas := mkManejador {
  objetos : list Tareas;
  categorias : list Categoria;
  idCategoria : Z;
  idTarea : Z;
  historial_acciones : list Accion;
  historial_deshacer : list Accion
}.

(** [ManejadorTareas.__init__] *)
Definition inicial : ManejadorTareas :=
  mkManejador [] [] 1 1 [] [].

#[global] Instance Tareas_eq_dec : EqDecision Tareas.
Proof. solve_decision. Defined.

#[global] Instance Accion_eq_dec : EqDecision Accion.
Proof. solve_decision. Defined.

(** ** Field updates *)

Definition con_subcategorias (c : Categoria) (s : list Categoria) : Categoria :=
  mkCategoria (categoria_id c) (nombre c) s (tareasUrgentes c) (tareas c).

Definition con_tareasUrgentes (q : list ref) (c : Categoria) : Categoria :=
  mkCategoria (categoria_id c) (nombre c) (subcategorias c) q (tareas c).

Definition con_tareas (l : list ref) (c : Categoria) : Categoria :=
  mkCategoria (categoria_id c) (nombre c) (subcategorias c) (tareasUrgentes c) l.

(** [self.subcategorias.append(Categoria(id, nombre))] *)
Definition Categoria_agregarSubcategoria (id : Z) (nom : string) (c : Categoria)
  : Categoria :=
  con_subcategorias c (subcategorias c ++ [mkCategoria id nom [] [] []]).

(** ** Category references *)

(** The object a route denotes. *)
Fixpoint obtener (r : Ruta) (cs : list Categoria) : option Categoria :=
  match r with
  | [] => None
  | i :: r' =>
      match cs !! i with
      | None => None
      | Some c =>
          match r' with
          | [] => Some c
          | _ :: _ => obtener r' (subcategorias c)
          end
      end
  end.

(** In-place mutation of the object a route denotes.  A route that denotes
    nothing leaves the forest as it is (no such route exists in a run). *)
Fixpoint actualizar (f : Categoria → Categoria) (r : Ruta) (cs : list Categoria)
  : list Categoria :=
  match r with
  | [] => cs
  | i :: r' =>
      match cs !! i with
      | None => cs
      | Some c =>
          <[i := match r' with
                 | [] => f c
                 | _ :: _ => con_subcategorias c (actualizar f r' (subcategorias c))
                 end]> cs
      end
  end.

(** Reading and writing [categoria.tareas] and [categoria.tareasUrgentes]. *)
Definition tareas_de (r : Ruta) (cs : list Categoria) : list ref :=
  match obtener r cs with Some c => tareas c | None => [] end.

Definition urgentes_de (r : Ruta) (cs : list Categoria) : list ref :=
  match obtener r cs with Some c => tareasUrgentes c | None => [] end.

Definition poner_tareas (r : Ruta) (l : list ref) (cs : list Categoria) :=
  actualizar (con_tareas l) r cs.

Definition poner_urgentes (r : Ruta) (q : list ref) (cs : list Categoria) :=
  actualizar (con_tareasUrgentes q) r cs.

(** ** Registry lookup *)

(** [categoria.id == id or categoria.nombre == nombre], where either
    argument may be [None]; an [int] or [str] never equals [None]. *)
Definition coincide (c : Categoria) (id : option Z) (nom : option string) : bool :=
  bool_decide (Some (categoria_id c) = id) || bool_decide (Some (nombre c) = nom).

(** [encontrarCategoriaEnSubcategorias]: the result is the route of the
    category found, relative to [categoria] ([[]] is [categoria] itself). *)
Fixpoint encontrarCategoriaEnSubcategorias (categoria : Categoria)
    (id : option Z) (nom : option string) : option Ruta :=
  if coincide categoria id nom then Some []
  else
    (fix bucle (subs : list Categoria) (i : nat) : option Ruta :=
       match subs with
       | [] => None
       | subcategoria :: resto =>
           match encontrarCategoriaEnSubcategorias subcategoria id nom with
           | Some r => Some (i :: r)
           | None => bucle resto (S i)
           end
       end) (subcategorias categoria) 0%nat.

(** The [for subcategoria in categoria.subcategorias] loop of both search
    functions, from position [i] on. *)
Fixpoint buscarEnSubcategorias (subs : list Categoria) (i : nat)
    (id : option Z) (nom : option string) : option Ruta :=
  match subs with
  | [] => None
  | subcategoria :: resto =>
      match encontrarCategoriaEnSubcategorias subcategoria id nom with
      | Some r => Some (i :: r)
      | None => buscarEnSubcategorias resto (S i) id nom
      end
  end.

(** The [for categoria in self.categorias] loop of [encontrarCategoria]. *)
Fixpoint buscarEnCategorias (cs : list Categoria) (i : nat)
    (id : option Z) (nom : option string) : option Ruta :=
  match cs with
  | [] => None
  | categoria :: resto =>
      if coincide categoria id nom then Some [i]
      else
        match buscarEnSubcategorias (subcategorias categoria) 0%nat id nom with
        | Some r => Some (i :: r)
        | None => buscarEnCategorias resto (S i) id nom
        end
  end.

(** [ManejadorTareas.encontrarCategoria] *)
Definition encontrarCategoria (m : ManejadorTareas)
    (id : option Z) (nom : option string) : option Ruta :=
  buscarEnCategorias (categorias m) 0%nat id nom.

(** ** Task lists *)

(** The field values of the object behind a reference.  Every reference of
    a run denotes an object; the default is never read. *)
Definition leer (objs : list Tareas) (r : ref) : Tareas :=
  default (mkTareas 0 "" "" 0 0) (objs !! r).

(** [next((tarea for tarea in categoria.tareas if tarea.id == idTarea), None)] *)
Fixpoint buscarTarea (objs : list Tareas) (l : list ref) (idT : Z) : option ref :=
  match l with
  | [] => None
  | tarea :: resto =>
      if bool_decide (tarea_id <$> objs !! tarea = Some idT) then Some tarea
      else buscarTarea objs resto idT
  end.

(** [lista.remove(tarea)]: drops the first occurrence of the object, and
    raises [ValueError] ([None]) when there is none.  [Tareas] defines no
    [__eq__], so objects are compared by identity. *)
Fixpoint quitar (tarea : ref) (l : list ref) : option (list ref) :=
  match l with
  | [] => None
  | x :: resto =>
      if decide (x = tarea) then Some resto
      else cons x <$> quitar tarea resto
  end.

(** The four assignments [destino.campo = origen.campo]. *)
Definition copiar_campos (origen destino : ref) (objs : list Tareas) : list Tareas :=
  let o := leer objs origen in
  alter (λ t, mkTareas (tarea_id t) (titulo o) (descripcion o) (prioridad o)
                (fecha_vencimiento o)) destino objs.

(** ** Results *)

(** What an operation prints. *)
Inductive Mensaje :=
| CategoriaAgregada (nom : string)
| ErrorCategoriaYaExiste
| SubcategoriaAgregada (nom nombreCategoria : string)
| ErrorCategoriaNoExiste
| TareaAgregada (tit categoria_nombre : string)
| TareaEliminada (idT : Z)
| ErrorTareaNoExiste
| TareaModificada (nuevo_titulo : string)
| AccionDeshecha
| NoHayAccionesParaDeshacer
| AccionRehecha
| NoHayAccionesParaRehacer
| TareaUrgenteAnadida (tarea : Tareas)
| ProcesandoTareaUrgente (tarea : Tareas)
| NoHayTareasUrgentes
| ListaTareasUrgentes (categoria_nombre : string) (ts : list Tareas)
| ErrorLaCategoriaNoExiste (categoria_nombre : string).

Inductive Excepcion := ValueError.

(** An operation either returns after printing its message or raises. *)
Inductive Resultado :=
| Imprime (msg : Mensaje)
| Lanza (e : Excepcion).

#[global] Instance Mensaje_eq_dec : EqDecision Mensaje.
Proof. solve_decision. Defined.

#[global] Instance Excepcion_eq_dec : EqDecision Excepcion.
Proof. solve_decision. Defined.

#[global] Instance Resultado_eq_dec : EqDecision Resultado.
Proof. solve_decision. Defined.

(** ** Operations of [ManejadorTareas] *)

Definition agregarCategoria (nom : string) (m : ManejadorTareas)
  : ManejadorTareas * Resultado :=
  match encontrarCategoria m None (Some nom) with
  | Some _ => (m, Imprime ErrorCategoriaYaExiste)
  | None =>
      (mkManejador (objetos m)
         (categorias m ++ [mkCategoria (idCategoria m) nom [] [] []])
         (idCategoria m + 1) (idTarea m)
         (historial_acciones m) (historial_deshacer m),
       Imprime (CategoriaAgregada nom))
  end.

Definition agregarSubcategoria (nom nombreCategoria : string) (m : ManejadorTareas)
  : ManejadorTareas * Resultado :=
  match encontrarCategoria m None (Some nombreCategoria) with
  | Some categoria =>
      (mkManejador (objetos m)
         (actualizar (Categoria_agregarSubcategoria (idCategoria m) nom)
            categoria (categorias m))
         (idCategoria m + 1) (idTarea m)
         (historial_acciones m) (historial_deshacer m),
       Imprime (SubcategoriaAgregada nom nombreCategoria))
  | None => (m, Imprime ErrorCategoriaNoExiste)
  end.

Definition agregarTarea (tit desc : string) (prio : Z) (fecha : datetime)
    (categoria_nombre : string) (m : ManejadorTareas)
  : ManejadorTareas * Resultado :=
  match encontrarCategoria m None (Some categoria_nombre) with
  | Some categoria =>
      let tarea := length (objetos m) in
      (mkManejador
         (objetos m ++ [mkTareas (idTarea m) tit desc prio fecha])
         (poner_tareas categoria (tareas_de categoria (categorias m) ++ [tarea])
            (categorias m))
         (idCategoria m) (idTarea m + 1)
         (agregar tarea categoria :: historial_acciones m)
         (historial_deshacer m),
       Imprime (TareaAgregada tit categoria_nombre))
  | None => (m, Imprime ErrorCategoriaNoExiste)
  end.

Definition eliminarTarea (idT : Z) (categoria_nombre : string) (m : ManejadorTareas)
  : ManejadorTareas * Resultado :=
  match encontrarCategoria m None (Some categoria_nombre) with
  | Some categoria =>
      match buscarTarea (objetos m) (tareas_de categoria (categorias m)) idT with
      | Some tarea =>
          match quitar tarea (tareas_de categoria (categorias m)) with
          | Some l =>
              (mkManejador (objetos m)
                 (poner_tareas categoria l (categorias m))
                 (idCategoria m) (idTarea m)
                 (eliminar tarea categoria :: historial_acciones m)
                 (historial_deshacer m),
               Imprime (TareaEliminada idT))
          | None => (m, Lanza ValueError)
          end
      | None => (m, Imprime ErrorTareaNoExiste)
      end
  | None => (m, Imprime ErrorCategoriaNoExiste)
  end.

Definition modificarTarea (idT : Z) (nuevo_titulo nueva_descripcion : string)
    (nueva_prioridad : Z) (nueva_fecha_vencimiento : datetime)
    (categoria_nombre : string) (m : ManejadorTareas)
  : ManejadorTareas * Resultado :=
  match encontrarCategoria m None (Some categoria_nombre) with
  | Some categoria =>
      match buscarTarea (objetos m) (tareas_de categoria (categorias m)) idT with
      | Some tarea =>
          let t := leer (objetos m) tarea in
          let tarea_anterior := length (objetos m) in
          (mkManejador
             (alter (λ x, mkTareas (tarea_id x) nuevo_titulo nueva_descripcion
                            nueva_prioridad nueva_fecha_vencimiento) tarea
                (objetos m ++ [mkTareas (tarea_id t) (titulo t) (descripcion t)
                                 (prioridad t) (fecha_vencimiento t)]))
             (categorias m) (idCategoria m) (idTarea m)
             (modificar tarea_anterior tarea categoria :: historial_acciones m)
             (historial_deshacer m),
           Imprime (TareaModificada nuevo_titulo))
      | None => (m, Imprime ErrorTareaNoExiste)
      end
  | None => (m, Imprime ErrorCategoriaNoExiste)
  end.

(** [deshacer].  [LifoQueue.get] has already removed the record when
    [list.remove] raises, so the record is lost in that case. *)
Definition deshacer (m : ManejadorTareas) : ManejadorTareas * Resultado :=
  match historial_acciones m with
  | [] => (m, Imprime NoHayAccionesParaDeshacer)
  | ultima_accion :: resto =>
      match ultima_accion with
      | agregar tarea categoria =>
          match quitar tarea (tareas_de categoria (categorias m)) with
          | Some l =>
              (mkManejador (objetos m)
                 (poner_tareas categoria l (categorias m))
                 (idCategoria m) (idTarea m) resto
                 (ultima_accion :: historial_deshacer m),
               Imprime AccionDeshecha)
          | None =>
              (mkManejador (objetos m) (categorias m) (idCategoria m) (idTarea m)
                 resto (historial_deshacer m),
               Lanza ValueError)
          end
      | eliminar tarea categoria =>
          (mkManejador (objetos m)
             (poner_tareas categoria (tareas_de categoria (categorias m) ++ [tarea])
                (categorias m))
             (idCategoria m) (idTarea m) resto
             (ultima_accion :: historial_deshacer m),
           Imprime AccionDeshecha)
      | modificar tarea_anterior tarea_modificada categoria =>
          (mkManejador
             (copiar_campos tarea_anterior tarea_modificada (objetos m))
             (categorias m) (idCategoria m) (idTarea m) resto
             (ultima_accion :: historial_deshacer m),
           Imprime AccionDeshecha)
      end
  end.

(** [rehacer].  The ['modificar'] branch assigns the fields of
    [tarea_anterior], exactly as [deshacer] does. *)
Definition rehacer (m : ManejadorTareas) : ManejadorTareas * Resultado :=
  match historial_deshacer m with
  | [] => (m, Imprime NoHayAccionesParaRehacer)
  | accion_deshacer :: resto =>
      match accion_deshacer with
      | agregar tarea categoria =>
          (mkManejador (objetos m)
             (poner_tareas categoria (tareas_de categoria (categorias m) ++ [tarea])
                (categorias m))
             (idCategoria m) (idTarea m)
             (accion_deshacer :: historial_acciones m) resto,
           Imprime AccionRehecha)
      | eliminar tarea categoria =>
          match quitar tarea (tareas_de categoria (categorias m)) with
          | Some l =>
              (mkManejador (objetos m)
                 (poner_tareas categoria l (categorias m))
                 (idCategoria m) (idTarea m)
                 (accion_deshacer :: historial_acciones m) resto,
               Imprime AccionRehecha)
          | None =>
              (mkManejador (objetos m) (categorias m) (idCategoria m) (idTarea m)
                 (historial_acciones m) resto,
               Lanza ValueError)
          end
      | modificar tarea_anterior tarea_modificada categoria =>
          (mkManejador
             (copiar_campos tarea_anterior tarea_modificada (objetos m))
             (categorias m) (idCategoria m) (idTarea m)
             (accion_deshacer :: historial_acciones m) resto,
           Imprime AccionRehecha)
      end
  end.

Definition agregarTareaUrgente (tit desc : string) (prio : Z) (fecha : datetime)
    (categoria_nombre : string) (m : ManejadorTareas)
  : ManejadorTareas * Resultado :=
  match encontrarCategoria m None (Some categoria_nombre) with
  | Some categoria =>
      let tarea := length (objetos m) in
      (mkManejador
         (objetos m ++ [mkTareas (idTarea m) tit desc prio fecha])
         (poner_urgentes categoria
            (urgentes_de categoria (categorias m) ++ [tarea]) (categorias m))
         (idCategoria m) (idTarea m + 1)
         (historial_acciones m) (historial_deshacer m),
       Imprime (TareaUrgenteAnadida (mkTareas (idTarea m) tit desc prio fecha)))
  | None => (m, Imprime ErrorCategoriaNoExiste)
  end.

Definition procesarTareaUrgente (categoria_nombre : string) (m : ManejadorTareas)
  : ManejadorTareas * Resultado :=
  match encontrarCategoria m None (Some categoria_nombre) with
  | Some categoria =>
      match urgentes_de categoria (categorias m) with
      | tarea :: resto =>
          (mkManejador (objetos m)
             (poner_urgentes categoria resto (categorias m))
             (idCategoria m) (idTarea m)
             (historial_acciones m) (historial_deshacer m),
           Imprime (ProcesandoTareaUrgente (leer (objetos m) tarea)))
      | [] => (m, Imprime NoHayTareasUrgentes)
      end
  | None => (m, Imprime ErrorCategoriaNoExiste)
  end.

Definition mostrarTareasUrgentes (categoria_nombre : string) (m : ManejadorTareas)
  : ManejadorTareas * Resultado :=
  match encontrarCategoria m None (Some categoria_nombre) with
  | Some categoria =>
      match urgentes_de categoria (categorias m) with
      | _ :: _ =>
          (m, Imprime (ListaTareasUrgentes categoria_nombre
                         (leer (objetos m) <$> urgentes_de categoria (categorias m))))
      | [] => (m, Imprime NoHayTareasUrgentes)
      end
  | None => (m, Imprime (ErrorLaCategoriaNoExiste categoria_nombre))
  end.

(** ** Runs *)

(** One call of the menu loop on the manager. *)
Inductive Operacion :=
| OpAgregarCategoria (nom : string)
| OpAgregarSubcategoria (nom nombreCategoria : string)
| OpAgregarTarea (tit desc : string) (prio : Z) (fecha : datetime)
    (categoria_nombre : string)
| OpEliminarTarea (idT : Z) (categoria_nombre : string)
| OpModificarTarea (idT : Z) (tit desc : string) (prio : Z) (fecha : datetime)
    (categoria_nombre : string)
| OpDeshacer
| OpRehacer
| OpAgregarTareaUrgente (tit desc : string) (prio : Z) (fecha : datetime)
    (categoria_nombre : string)
| OpProcesarTareaUrgente (categoria_nombre : string)
| OpMostrarTareasUrgentes (categoria_nombre : string).

Definition paso (op : Operacion) (m : ManejadorTareas) : ManejadorTareas * Resultado :=
  match op with
  | OpAgregarCategoria n => agregarCategoria n m
  | OpAgregarSubcategoria n p => agregarSubcategoria n p m
  | OpAgregarTarea t d p f c => agregarTarea t d p f c m
  | OpEliminarTarea i c => eliminarTarea i c m
  | OpModificarTarea i t d p f c => modificarTarea i t d p f c m
  | OpDeshacer => deshacer m
  | OpRehacer => rehacer m
  | OpAgregarTareaUrgente t d p f c => agregarTareaUrgente t d p f c m
  | OpProcesarTareaUrgente c => procesarTareaUrgente c m
  | OpMostrarTareasUrgentes c => mostrarTareasUrgentes c m
  end.

(** A run: the operations in order, with what each one returned.  After a
    raise the manager is as the raising call left it; the run goes on from
    there, as for a caller that catches the exception. *)
Fixpoint ejecutar (ops : list Operacion) (m : ManejadorTareas)
  : ManejadorTareas * list Resultado :=
  match ops with
  | [] => (m, [])
  | op :: resto =>
      let '(m1, r) := paso op m in
      let '(m2, rs) := ejecutar resto m1 in
      (m2, r :: rs)
  end.

Definition estado (ops : list Operacion) (m : ManejadorTareas) : ManejadorTareas :=
  fst (ejecutar ops m).

Definition salidas (ops : list Operacion) (m : ManejadorTareas) : list Resultado :=
  snd (ejecutar ops m).

(** States of a run that starts from a new manager. *)
Definition alcanzable (m : ManejadorTareas) : Prop :=
  ∃ ops, m = estado ops inicial.

(** ** The forest in depth-first pre-order *)

Definition prefijo (i : nat) (rc : Ruta * Categoria) : Ruta * Categoria :=
  (i :: rc.1, rc.2).

(** A category, then the subtrees of its subcategories from left to right;
    every node comes with its route relative to the category. *)
Fixpoint preorden_cat (c : Categoria) : list (Ruta * Categoria) :=
  ([], c) ::
  (fix hijos (subs : list Categoria) (i : nat) : list (Ruta * Categoria) :=
     match subs with
     | [] => []
     | s :: resto => (prefijo i <$> preorden_cat s) ++ hijos resto (S i)
     end) (subcategorias c) 0%nat.

Fixpoint preorden_lista (cs : list Categoria) (i : nat) : list (Ruta * Categoria) :=
  match cs with
  | [] => []
  | c :: resto => (prefijo i <$> preorden_cat c) ++ preorden_lista resto (S i)
  end.

Definition preorden (cs : list Categoria) : list (Ruta * Categoria) :=
  preorden_lista cs 0%nat.

(** All category objects of a forest. *)
Definition nodos (cs : list Categoria) : list Categoria := snd <$> preorden cs.

(** The match condition of the search, as a proposition. *)
Definition Coincide (c : Categoria) (id : option Z) (nom : option string) : Prop :=
  id = Some (categoria_id c) ∨ nom = Some (nombre c).

(** Linear search: the route of the first entry that matches. *)
Definition primera (id : option Z) (nom : option string)
    (l : list (Ruta * Categoria)) : option Ruta :=
  fst <$> find (λ rc, coincide rc.2 id nom) l.

(** The fields of a category object itself (its subcategories are objects
    of their own, reached through longer routes). *)
Definition campos (c : Categoria) : Z * string * list ref * list ref :=
  (categoria_id c, nombre c, tareasUrgentes c, tareas c).

(** The names of all categories of a forest, and of its roots. *)
Definition nombres (cs : list Categoria) : list string := nombre <$> nodos cs.

Definition nombres_raices (cs : list Categoria) : list string := nombre <$> cs.

(** A step that gives a category a name already borne in the forest: a call
    of [agregarSubcategoria] that finds the parent, with a name that some
    category already has. *)
Definition reusa_nombre (op : Operacion) (m : ManejadorTareas) : bool :=
  match op with
  | OpAgregarSubcategoria nom nombreCategoria =>
      match encontrarCategoria m None (Some nombreCategoria) with
      | Some _ => bool_decide (nom ∈ nombres (categorias m))
      | None => false
      end
  | _ => false
  end.

(** No step of the run from [m] reuses a name. *)
Fixpoint sin_reusos (ops : list Operacion) (m : ManejadorTareas) : bool :=
  match ops with
  | [] => true
  | op :: resto => negb (reusa_nombre op m) && sin_reusos resto (paso op m).1
  end.

(** ** Which task objects the manager still refers to *)

(** The task a history record acts on ([tarea], [tarea_modificada]). *)
Definition tarea_de (a : Accion) : ref :=
  match a with
  | agregar t _ => t
  | eliminar t _ => t
  | modificar _ t _ => t
  end.

Definition en_historial (m : ManejadorTareas) (a : Accion) : Prop :=
  a ∈ historial_acciones m ∨ a ∈ historial_deshacer m.

(** Objects on the task side: in some task list, or the task of a record. *)
Definition lado_tareas (m : ManejadorTareas) (r : ref) : Prop :=
  (∃ q, r ∈ tareas_de q (categorias m)) ∨
  (∃ a, en_historial m a ∧ tarea_de a = r).

(** Objects on the urgent side: in some urgent queue. *)
Definition lado_urgentes (m : ManejadorTareas) (r : ref) : Prop :=
  ∃ q, r ∈ urgentes_de q (categorias m).

(** What Python guarantees about the objects of a run: every reference
    denotes an object that exists, and no urgent task is also an ordinary
    task (the two kinds are created by different calls and never moved
    across). *)
Record invariante (m : ManejadorTareas) : Prop := mkInvariante {
  inv_tareas : ∀ r, lado_tareas m r → (r < length (objetos m))%nat;
  inv_urgentes : ∀ r, lado_urgentes m r → (r < length (objetos m))%nat;
  inv_separadas : ∀ r, lado_urgentes m r → ¬ lado_tareas m r
}.

(** ** Task ids handed out during a run *)

(** The ids of the tasks a step creates with [Tareas(self.idTarea, ...)]:
    the objects [agregarTarea] or [agregarTareaUrgente] adds to the store.
    ([modificarTarea] adds an object too, the copy [tarea_anterior], but it
    carries the id of the task it copies; no id is handed out for it.) *)
Definition asignados (op : Operacion) (m : ManejadorTareas) : list Z :=
  match op with
  | OpAgregarTarea _ _ _ _ _ | OpAgregarTareaUrgente _ _ _ _ _ =>
      tarea_id <$> drop (length (objetos m)) (objetos (paso op m).1)
  | _ => []
  end.

(** All ids handed out during a run, in the order of the calls. *)
Fixpoint ids_asignados (ops : list Operacion) (m : ManejadorTareas) : list Z :=
  match ops with
  | [] => []
  | op :: resto => asignados op m ++ ids_asignados resto (paso op m).1
  end.

(** Every object of the store carries an id below the counter. *)
Definition ids_acotados (m : ManejadorTareas) : Prop :=
  1 ≤ idTarea m ∧ Forall (λ t, 1 ≤ tarea_id t < idTarea m) (objetos m).

(** ** Urgent tasks in a run *)

Definition es_historial (op : Operacion) : Prop :=
  op = OpDeshacer ∨ op = OpRehacer.

(** The tasks that the calls of [procesarTareaUrgente] printed, in order. *)
Definition procesadas (rs : list Resultado) : list Tareas :=
  omap (λ r, match r with
             | Imprime (ProcesandoTareaUrgente t) => Some t
             | _ => None
             end) rs.

(** [agregarTareaUrgente] with the title, description, priority and date
    of [x] (the id of [x] plays no role: the manager assigns it). *)
Definition encolar (x : Tareas) (n : string) : Operacion :=
  OpAgregarTareaUrgente (titulo x) (descripcion x) (prioridad x)
    (fecha_vencimiento x) n.

Definition con_id (i : Z) (x : Tareas) : Tareas :=
  mkTareas i (titulo x) (descripcion x) (prioridad x) (fecha_vencimiento x).

(** Three urgent tasks put on the queue of category [n] and three calls of
    [procesarTareaUrgente] on it, with any calls [h1] ... [h5] in between. *)
Definition tres_urgentes (n : string) (x1 x2 x3 : Tareas)
    (h1 h2 h3 h4 h5 : list Operacion) : list Operacion :=
  encolar x1 n :: h1 ++ encolar x2 n :: h2 ++ encolar x3 n :: h3 ++
  OpProcesarTareaUrgente n :: h4 ++ OpProcesarTareaUrgente n :: h5 ++
  [OpProcesarTareaUrgente n].

(** What the urgent side of category [n] looks like: the category the name
    resolves to, the field values of the queued tasks from head to tail, and
    the task counter. *)
Record vista (n : string) (p : Ruta) (vs : list Tareas) (k : Z)
    (m : ManejadorTareas) : Prop := mkVista {
  vista_inv : invariante m;
  vista_cat : encontrarCategoria m None (Some n) = Some p;
  vista_cola : leer (objetos m) <$> urgentes_de p (categorias m) = vs;
  vista_id : idTarea m = k
}.

(** ** Listings *)

(** What [mostrarTareasOrdenadas] prints. *)
Inductive Listado :=
| TareasOrdenadas (ts : list Tareas)
| NoHayTareasEnCategoria
| ListadoCategoriaNoExiste.

(** The sort key [(t.prioridad, t.fecha_vencimiento)] and the order of
    Python tuples on it: first component, then second. *)
Definition clave (t : Tareas) : Z * Z := (prioridad t, fecha_vencimiento t).

Definition clave_le (a b : Z * Z) : bool :=
  (a.1 <? b.1) || ((a.1 =? b.1) && (a.2 <=? b.2)).

(** [sorted(lista, key=...)].  Python's sort is stable and ascending, which
    determines its result (lemma [ordenar_unico]); the result is computed
    here by insertion from the right, each element going in front of the
    first one whose key is not smaller. *)
Fixpoint insertar_ordenado (objs : list Tareas) (r : ref) (l : list ref)
  : list ref :=
  match l with
  | [] => [r]
  | x :: resto =>
      if clave_le (clave (leer objs r)) (clave (leer objs x)) then r :: x :: resto
      else x :: insertar_ordenado objs r resto
  end.

Definition ordenar (objs : list Tareas) (l : list ref) : list ref :=
  foldr (insertar_ordenado objs) [] l.

(** [mostrarTareasOrdenadas]: prints, and leaves the manager alone. *)
Definition mostrarTareasOrdenadas (categoria_nombre : string) (m : ManejadorTareas)
  : Listado :=
  match encontrarCategoria m None (Some categoria_nombre) with
  | Some categoria =>
      match tareas_de categoria (categorias m) with
      | _ :: _ =>
          TareasOrdenadas
            (leer (objetos m) <$> ordenar (objetos m) (tareas_de categoria (categorias m)))
      | [] => NoHayTareasEnCategoria
      end
  | None => ListadoCategoriaNoExiste
  end.

(** Task [a] may come before task [b] in the sorted listing: higher
    priority (smaller number) first, equal priorities by earlier date. *)
Definition antes (objs : list Tareas) (a b : ref) : Prop :=
  prioridad (leer objs a) < prioridad (leer objs b) ∨
  (prioridad (leer objs a) = prioridad (leer objs b) ∧
   fecha_vencimiento (leer objs a) ≤ fecha_vencimiento (leer objs b)).

(** The tasks of a list that have a given sort key, in the list's order. *)
Definition con_clave (objs : list Tareas) (k : Z * Z) (l : list ref) : list ref :=
  filter (λ r, clave (leer objs r) = k) l.

(** A line printed by [mostrarCategorias], with the number of spaces in
    front of it.  A task line shows the task's id and its text. *)
Inductive Linea :=
| LNoHayCategorias
| LCategoria (nom : string)
| LSubcategoria (sangria : nat) (nom : string)
| LTareasEn (sangria : nat) (nom : string)
| LTarea (sangria : nat) (tarea : Tareas)
| LNoHayTareasEn (sangria : nat) (nom : string).

(** [mostrarTareas(categoria, nivel)] *)
Definition mostrarTareas (objs : list Tareas) (categoria : Categoria) (nivel : nat)
  : list Linea :=
  match tareas categoria with
  | _ :: _ =>
      LTareasEn (nivel * 2) (nombre categoria) ::
      (LTarea ((nivel + 2) * 2) ∘ leer objs <$> tareas categoria)
  | [] => [LNoHayTareasEn (nivel * 2) (nombre categoria)]
  end.

(** The body of the loop of [mostrarSubcategorias] for one category, and
    the loop itself. *)
Fixpoint mostrarSubcategoria (objs : list Tareas) (subcategoria : Categoria)
    (nivel : nat) : list Linea :=
  LSubcategoria (nivel * 2) (nombre subcategoria) ::
  mostrarTareas objs subcategoria (nivel + 1) ++
  (fix bucle (subs : list Categoria) : list Linea :=
     match subs with
     | [] => []
     | s :: resto => mostrarSubcategoria objs s (nivel + 1) ++ bucle resto
     end) (subcategorias subcategoria).

(** [mostrarSubcategorias(categoria, nivel)] *)
Definition mostrarSubcategorias (objs : list Tareas) (categoria : Categoria)
    (nivel : nat) : list Linea :=
  s ← subcategorias categoria; mostrarSubcategoria objs s nivel.

(** [mostrarCategorias] *)
Definition mostrarCategorias (m : ManejadorTareas) : list Linea :=
  match categorias m with
  | [] => [LNoHayCategorias]
  | _ :: _ =>
      categoria ← categorias m;
      LCategoria (nombre categoria) ::
      mostrarTareas (objetos m) categoria 0 ++
      mostrarSubcategorias (objetos m) categoria 1
  end.

(** The heading lines of a listing, each with its indentation, and the
    tasks it shows. *)
Definition encabezado (l : Linea) : option (nat * string) :=
  match l with
  | LCategoria n => Some (0%nat, n)
  | LSubcategoria s n => Some (s, n)
  | _ => None
  end.

Definition tarea_mostrada (l : Linea) : option Tareas :=
  match l with
  | LTarea _ t => Some t
  | _ => None
  end.

(** ** Category ids *)

(** Every category of the forest carries an id below the counter. *)
Definition ids_categoria_acotados (m : ManejadorTareas) : Prop :=
  1 ≤ idCategoria m ∧
  ∀ q c, obtener q (categorias m) = Some c → 1 ≤ categoria_id c < idCategoria m.

(** The ids of all categories of a forest, in pre-order. *)
Definition ids_categorias (cs : list Categoria) : list Z :=
  categoria_id <$> nodos cs.

(** ** The undo history and the task lists *)





(** ** Sample runs

    The scenario of the examples: category "Trabajo" with a subcategory
    "Urgente", two tasks and two urgent tasks. *)
Definition escenario : list Operacion :=
  [ OpAgregarCategoria "Trabajo";
    OpAgregarSubcategoria "Urgente" "Trabajo";
    OpAgregarTarea "Informe" "anual" 1 741000 "Trabajo";
    OpAgregarTarea "Correo" "responder" 3 739000 "Trabajo";
    OpAgregarTareaUrgente "Llamada" "cliente" 1 739100 "Trabajo";
    OpAgregarTareaUrgente "Factura" "pagar" 2 739200 "Trabajo" ].

Definition ejemplo : ManejadorTareas := estado escenario inicial.

(** The sample run before its urgent tasks: the queue of "Trabajo" is
    empty and [historial_acciones] holds two records. *)
Definition ejemplo_sin_urgentes : ManejadorTareas :=
  estado (take 4 escenario) inicial.

Definition llamada : Tareas := mkTareas 0 "Llamada" "cliente" 1 739100.
Definition factura : Tareas := mkTareas 0 "Factura" "pagar" 2 739200.
Definition aviso : Tareas := mkTareas 0 "Aviso" "enviar" 3 739300.

(** Modify a task, undo, redo. *)
Definition modificar_y_rehacer : list Operacion :=
  [ OpAgregarCategoria "Trabajo";
    OpAgregarTarea "Informe" "anual" 1 741000 "Trabajo";
    OpModificarTarea 1 "Informe final" "trimestral" 2 741030 "Trabajo";
    OpDeshacer;
    OpRehacer ].

(** Remove a task, undo, remove it again, redo the first removal. *)
Definition rehacer_obsoleto : list Operacion :=
  [ OpAgregarCategoria "Trabajo";
    OpAgregarTarea "Informe" "anual" 1 741000 "Trabajo";
    OpEliminarTarea 1 "Trabajo";
    OpDeshacer;
    OpEliminarTarea 1 "Trabajo";
    OpRehacer ].

(** A subcategory named like its parent. *)
Definition subcategoria_homonima : list Operacion :=
  [ OpAgregarCategoria "Trabajo";
    OpAgregarSubcategoria "Trabajo" "Trabajo" ].

(** * Properties *)

(** ** Induction on category trees *)

Lemma Categoria_ind (P : Categoria → Prop) :
  (∀ i n subs u t, Forall P subs → P (mkCategoria i n subs u t)) →
  ∀ c, P c.
Proof.
  intros H. fix IH 1. intros [i n subs u t]. apply H.
  induction subs as [|s subs IHs]; constructor; [apply IH | exact IHs].
Qed.

(** ** Case analysis of one step *)

(** Unfolds the operation at hand and splits on every test it makes: the
    category lookup, the task lookup, [list.remove], the top of a history,
    the head of an urgent queue. *)
Ltac abrir_paso :=
  unfold agregarCategoria, agregarSubcategoria, agregarTarea, eliminarTarea,
    modificarTarea, deshacer, rehacer, agregarTareaUrgente,
    procesarTareaUrgente, mostrarTareasUrgentes;
  repeat case_match; simplify_eq;
  cbn [fst snd objetos categorias idCategoria idTarea
       historial_acciones historial_deshacer].

(** ** Unfolding the nested loops *)

Lemma encontrarCategoriaEnSubcategorias_eq c id nom :
  encontrarCategoriaEnSubcategorias c id nom =
  if coincide c id nom then Some []
  else buscarEnSubcategorias (subcategorias c) 0 id nom.
Proof.
  destruct c as [i n subs u t]; simpl.
  destruct (coincide _ _ _); [done|].
  generalize 0%nat. induction subs as [|s subs IH]; intros k; simpl; [done|].
  by rewrite IH.
Qed.

Lemma preorden_cat_eq c :
  preorden_cat c = ([], c) :: preorden_lista (subcategorias c) 0.
Proof.
  by destruct c.
Qed.

(** The loop over the roots is the loop over subcategories with the first
    call of the recursive search written out. *)
Lemma buscarEnCategorias_eq cs i id nom :
  buscarEnCategorias cs i id nom = buscarEnSubcategorias cs i id nom.
Proof.
  revert i. induction cs as [|c cs IH]; intros i; simpl; [done|].
  rewrite encontrarCategoriaEnSubcategorias_eq.
  destruct (coincide c id nom); [done|].
  destruct (buscarEnSubcategorias (subcategorias c) 0 id nom); [done|apply IH].
Qed.

Lemma coincide_Coincide c id nom :
  coincide c id nom = true ↔ Coincide c id nom.
Proof.
  unfold coincide, Coincide.
  rewrite orb_true_iff, !bool_decide_eq_true.
  split; (intros [H|H]; [left|right]); congruence.
Qed.

Lemma coincide_nombre c n :
  coincide c None (Some n) = bool_decide (nombre c = n).
Proof.
  unfold coincide. rewrite bool_decide_eq_false_2 by done. simpl.
  apply bool_decide_ext. split; congruence.
Qed.

(** ** The search is a linear search of the pre-order *)

Lemma primera_cons id nom rc l :
  primera id nom (rc :: l) =
  if coincide rc.2 id nom then Some rc.1 else primera id nom l.
Proof. unfold primera; simpl. by destruct (coincide rc.2 id nom). Qed.

Lemma primera_app id nom l1 l2 :
  primera id nom (l1 ++ l2) =
  match primera id nom l1 with
  | Some r => Some r
  | None => primera id nom l2
  end.
Proof.
  unfold primera. induction l1 as [|x l1 IH]; simpl; [done|].
  destruct (coincide x.2 id nom); [done|apply IH].
Qed.

Lemma primera_prefijo id nom i l :
  primera id nom (prefijo i <$> l) = cons i <$> primera id nom l.
Proof.
  unfold primera. induction l as [|x l IH]; simpl; [done|].
  destruct (coincide x.2 id nom); [done|apply IH].
Qed.

Lemma encontrar_primera_cat c id nom :
  encontrarCategoriaEnSubcategorias c id nom = primera id nom (preorden_cat c).
Proof.
  induction c as [ci n subs u t IH] using Categoria_ind.
  rewrite encontrarCategoriaEnSubcategorias_eq, preorden_cat_eq, primera_cons.
  cbn [fst snd subcategorias].
  destruct (coincide _ id nom); [done|].
  generalize 0%nat.
  induction IH as [|s subs Hs _ IHsubs]; intros k; [done|].
  cbn [preorden_lista buscarEnSubcategorias].
  rewrite primera_app, primera_prefijo, <- Hs.
  destruct (encontrarCategoriaEnSubcategorias s id nom); [done|apply IHsubs].
Qed.

Lemma buscar_primera cs i id nom :
  buscarEnSubcategorias cs i id nom = primera id nom (preorden_lista cs i).
Proof.
  revert i. induction cs as [|c cs IH]; intros i; [done|].
  cbn [preorden_lista buscarEnSubcategorias].
  rewrite primera_app, primera_prefijo, <- encontrar_primera_cat.
  destruct (encontrarCategoriaEnSubcategorias c id nom); [done|apply IH].
Qed.

Lemma encontrarCategoria_primera m id nom :
  encontrarCategoria m id nom = primera id nom (preorden (categorias m)).
Proof.
  unfold encontrarCategoria, preorden.
  by rewrite buscarEnCategorias_eq, buscar_primera.
Qed.

Lemma primera_Some id nom l r :
  primera id nom l = Some r →
  ∃ c antes despues,
    l = antes ++ (r, c) :: despues ∧ coincide c id nom = true ∧
    Forall (λ rc, coincide rc.2 id nom = false) antes.
Proof.
  revert r. induction l as [|[r0 c0] l IH]; intros r; [done|].
  rewrite primera_cons; simpl.
  destruct (coincide c0 id nom) eqn:Hc.
  - intros [= <-]. by exists c0, [], l.
  - intros (c & a & d & -> & ? & ?)%IH.
    exists c, ((r0, c0) :: a), d. split_and!; [done|done|by constructor].
Qed.

Lemma primera_None id nom l :
  primera id nom l = None → Forall (λ rc, coincide rc.2 id nom = false) l.
Proof.
  induction l as [|[r0 c0] l IH]; [constructor|].
  rewrite primera_cons; simpl.
  destruct (coincide c0 id nom) eqn:Hc; [done|].
  intros ?. constructor; auto.
Qed.

(** ** Routes and the pre-order list denote the same objects *)

Lemma elem_of_preorden_lista r c cs k :
  (r, c) ∈ preorden_lista cs k ↔
  ∃ i r' c0, r = (k + i)%nat :: r' ∧ cs !! i = Some c0 ∧ (r', c) ∈ preorden_cat c0.
Proof.
  revert k. induction cs as [|c1 cs IH]; intros k; simpl.
  - split; [by intros ?%elem_of_nil|]. by intros (i & ? & ? & _ & ? & _).
  - rewrite elem_of_app, list_elem_of_fmap, IH. split.
    + intros [([r' c'] & [= -> ->] & Hin)|(i & r' & c0 & -> & Hi & Hin)].
      * exists 0%nat, r', c1. by rewrite Nat.add_0_r.
      * exists (S i), r', c0. split_and!; [f_equal; lia|done|done].
    + intros ([|i] & r' & c0 & -> & Hi & Hin); simpl in Hi.
      * injection Hi as ->. left. exists (r', c).
        by rewrite Nat.add_0_r.
      * right. exists i, r', c0. split_and!; [f_equal; lia|done|done].
Qed.

Lemma elem_of_preorden_obtener r c cs :
  (r, c) ∈ preorden cs ↔ obtener r cs = Some c.
Proof.
  unfold preorden. revert cs c.
  induction r as [|i r IH]; intros cs c; rewrite elem_of_preorden_lista.
  - split; [by intros (? & ? & ? & ? & _)|done].
  - simpl. split.
    + intros (j & r' & c0 & [= -> <-] & -> & Hin).
      rewrite preorden_cat_eq, elem_of_cons in Hin.
      destruct Hin as [[= -> ->]|Hin]; [done|].
      apply IH in Hin. by destruct r.
    + destruct (cs !! i) as [c0|] eqn:Hi; [|done]. intros Hr.
      exists i, r, c0. split_and!; [done|done|].
      rewrite preorden_cat_eq, elem_of_cons.
      destruct r as [|j r]; [left; congruence|right; by apply IH].
Qed.

Lemma encontrarCategoria_Some m id nom r :
  encontrarCategoria m id nom = Some r →
  ∃ c, obtener r (categorias m) = Some c ∧ coincide c id nom = true.
Proof.
  rewrite encontrarCategoria_primera.
  intros (c & a & d & Hl & Hc & _)%primera_Some. exists c. split; [|done].
  apply elem_of_preorden_obtener. rewrite Hl, elem_of_app, elem_of_cons. auto.
Qed.

(** C7: [encontrarCategoria] walks the forest in depth-first pre-order and
    returns the first category whose id equals the given id or whose name
    equals the given name (either one suffices); it returns [None] exactly
    when no category of the forest matches. *)
Theorem encontrarCategoria_preorden (m : ManejadorTareas)
    (id : option Z) (nom : option string) :
  (∀ r c, (r, c) ∈ preorden (categorias m) ↔ obtener r (categorias m) = Some c) ∧
  encontrarCategoria m id nom = primera id nom (preorden (categorias m)) ∧
  match encontrarCategoria m id nom with
  | Some r =>
      ∃ c antes despues,
        preorden (categorias m) = antes ++ (r, c) :: despues ∧
        Coincide c id nom ∧
        Forall (λ rc, ¬ Coincide rc.2 id nom) antes
  | None =>
      ∀ r c, obtener r (categorias m) = Some c → ¬ Coincide c id nom
  end.
Proof.
  split; [intros r c; apply elem_of_preorden_obtener|].
  split; [apply encontrarCategoria_primera|].
  rewrite encontrarCategoria_primera.
  destruct (primera id nom (preorden (categorias m))) as [r|] eqn:Hp.
  - apply primera_Some in Hp as (c & a & d & Hl & Hc & Ha).
    exists c, a, d. split_and!; [done|by apply coincide_Coincide|].
    eapply Forall_impl; [exact Ha|]. intros rc Hf Hco%coincide_Coincide.
    congruence.
  - apply primera_None in Hp. intros r c Hr%elem_of_preorden_obtener.
    rewrite Forall_forall in Hp. specialize (Hp _ Hr). simpl in Hp.
    intros Hco%coincide_Coincide. congruence.
Qed.

(** ** Reading and writing through routes *)

Lemma con_subcategorias_id c : con_subcategorias c (subcategorias c) = c.
Proof. by destruct c. Qed.

Lemma obtener_cons i r cs :
  obtener (i :: r) cs =
  c ← cs !! i; match r with [] => Some c | _ :: _ => obtener r (subcategorias c) end.
Proof. simpl. by destruct (cs !! i). Qed.

Lemma obtener_actualizar f p cs c :
  obtener p cs = Some c → obtener p (actualizar f p cs) = Some (f c).
Proof.
  revert cs. induction p as [|i p IH]; intros cs; [done|]. simpl.
  destruct (cs !! i) as [c0|] eqn:Hi; [|done]. intros Hp.
  rewrite list_lookup_insert_eq by (by eapply lookup_lt_Some).
  destruct p as [|j p]; [congruence|]. by apply IH.
Qed.

(** A mutation that leaves the subcategory list alone is invisible through
    every projection [g] that it leaves alone; at routes other than the
    mutated one nothing is visible at all. *)
Lemma obtener_actualizar_proy {B} (g : Categoria → B) f p q cs :
  (∀ c, subcategorias (f c) = subcategorias c) →
  (∀ c s, g (con_subcategorias c s) = g c) →
  (q ≠ p ∨ ∀ c, g (f c) = g c) →
  g <$> obtener q (actualizar f p cs) = g <$> obtener q cs.
Proof.
  intros Hsub Hg. revert q cs.
  induction p as [|i p IH]; intros q cs Hq; [done|].
  cbn [actualizar]. destruct (cs !! i) as [c0|] eqn:Hi; [|done].
  destruct q as [|j q]; [done|]. rewrite !obtener_cons.
  destruct (decide (j = i)) as [->|Hne]; [|by rewrite list_lookup_insert_ne].
  rewrite list_lookup_insert_eq by (by eapply lookup_lt_Some).
  rewrite Hi. cbn [mbind option_bind].
  destruct p as [|k p], q as [|l q]; cbn [fmap option_fmap option_map].
  - destruct Hq as [?|Hq]; [done|]. by rewrite Hq.
  - by rewrite Hsub.
  - by rewrite Hg.
  - cbn [subcategorias con_subcategorias].
    apply IH. destruct Hq as [Hq|Hq]; [left; congruence|by right].
Qed.

Lemma tareas_de_poner_tareas p l cs c :
  obtener p cs = Some c → tareas_de p (poner_tareas p l cs) = l.
Proof.
  intros Hp. unfold tareas_de, poner_tareas.
  by rewrite (obtener_actualizar _ _ _ _ Hp).
Qed.

Lemma urgentes_de_poner_urgentes p q cs c :
  obtener p cs = Some c → urgentes_de p (poner_urgentes p q cs) = q.
Proof.
  intros Hp. unfold urgentes_de, poner_urgentes.
  by rewrite (obtener_actualizar _ _ _ _ Hp).
Qed.

Lemma actualizar_actualizar f g p cs :
  actualizar g p (actualizar f p cs) = actualizar (g ∘ f) p cs.
Proof.
  revert cs. induction p as [|i p IH]; intros cs; [done|].
  cbn [actualizar].
  destruct (cs !! i) as [c0|] eqn:Hi; cbn [actualizar]; [|by rewrite Hi].
  rewrite list_lookup_insert_eq by (by eapply lookup_lt_Some).
  rewrite list_insert_insert_eq. f_equal.
  destruct p as [|j p]; [done|].
  cbn [subcategorias con_subcategorias]. by rewrite IH.
Qed.

Lemma actualizar_fijo f p cs c :
  obtener p cs = Some c → f c = c → actualizar f p cs = cs.
Proof.
  intros Hp Hf. revert cs Hp. induction p as [|i p IH]; intros cs; [done|].
  cbn [actualizar obtener]. destruct (cs !! i) as [c0|] eqn:Hi; [|done]. intros Hp.
  apply list_insert_id. rewrite Hi. f_equal.
  destruct p as [|j p]; [congruence|].
  rewrite (IH _ Hp). symmetry. apply con_subcategorias_id.
Qed.

Lemma tareas_de_proy q cs : tareas_de q cs = default [] (tareas <$> obtener q cs).
Proof. unfold tareas_de. by destruct (obtener q cs). Qed.

Lemma urgentes_de_proy q cs :
  urgentes_de q cs = default [] (tareasUrgentes <$> obtener q cs).
Proof. unfold urgentes_de. by destruct (obtener q cs). Qed.

Lemma tareas_de_poner_tareas_otra p q l cs :
  q ≠ p → tareas_de q (poner_tareas p l cs) = tareas_de q cs.
Proof.
  intros Hq. rewrite !tareas_de_proy. unfold poner_tareas.
  rewrite (obtener_actualizar_proy tareas); auto.
Qed.

Lemma urgentes_de_poner_tareas p q l cs :
  urgentes_de q (poner_tareas p l cs) = urgentes_de q cs.
Proof.
  rewrite !urgentes_de_proy. unfold poner_tareas.
  rewrite (obtener_actualizar_proy tareasUrgentes); auto.
Qed.

Lemma urgentes_de_poner_urgentes_otra p q l cs :
  q ≠ p → urgentes_de q (poner_urgentes p l cs) = urgentes_de q cs.
Proof.
  intros Hq. rewrite !urgentes_de_proy. unfold poner_urgentes.
  rewrite (obtener_actualizar_proy tareasUrgentes); auto.
Qed.

Lemma tareas_de_poner_urgentes p q l cs :
  tareas_de q (poner_urgentes p l cs) = tareas_de q cs.
Proof.
  rewrite !tareas_de_proy. unfold poner_urgentes.
  rewrite (obtener_actualizar_proy tareas); auto.
Qed.

(** ** [list.remove] and the search by id *)

Lemma quitar_Some t l l' :
  quitar t l = Some l' ↔ ∃ l1 l2, l = l1 ++ t :: l2 ∧ (t ∉ l1) ∧ l' = l1 ++ l2.
Proof.
  revert l'. induction l as [|x l IH]; intros l'; simpl.
  - split; [done|]. intros (l1 & l2 & Hl & _). by destruct l1.
  - destruct (decide (x = t)) as [->|Hne].
    + split.
      * intros [= <-]. exists [], l. split_and!; [done|apply not_elem_of_nil|done].
      * intros ([|y l1] & l2 & Hl & Hnot & ->); simplify_eq/=; [done|].
        exfalso. apply Hnot. by left.
    + destruct (quitar t l) as [l0|] eqn:Hq; simpl.
      * split.
        -- intros [= <-]. destruct (proj1 (IH l0) eq_refl) as (l1 & l2 & -> & ? & ->).
           exists (x :: l1), l2. split_and!; [done| |done].
           rewrite not_elem_of_cons. auto.
        -- intros ([|y l1] & l2 & Hl & Hnot & ->); simplify_eq/=.
           f_equal. assert (Some l0 = Some (l1 ++ l2)) as [= ->]; [|done].
           apply IH. exists l1, l2. rewrite not_elem_of_cons in Hnot.
           by destruct Hnot.
      * split; [done|].
        intros ([|y l1] & l2 & Hl & Hnot & ->); simplify_eq/=.
        assert (None = Some (l1 ++ l2)); [|done].
        apply IH. exists l1, l2. rewrite not_elem_of_cons in Hnot.
        by destruct Hnot.
Qed.


Lemma quitar_nueva t l : t ∉ l → quitar t (l ++ [t]) = Some l.
Proof.
  intros Hn. apply quitar_Some. exists l, []. by rewrite app_nil_r.
Qed.

Lemma buscarTarea_Some objs l idT t :
  buscarTarea objs l idT = Some t →
  t ∈ l ∧ tarea_id <$> objs !! t = Some idT.
Proof.
  induction l as [|x l IH]; simpl; [done|].
  case_bool_decide as Hx.
  - intros [= <-]. split; [by left|done].
  - intros [? ?]%IH. split; [by right|done].
Qed.

Lemma leer_lookup objs r t : objs !! r = Some t → leer objs r = t.
Proof. unfold leer. by intros ->. Qed.

(** ** Removing a task and undoing it *)

(** C6: after a successful [eliminarTarea], an immediate [deshacer] puts the
    removed task back at the end of the category's task list; the other
    tasks keep their order, other categories and the task objects are
    untouched. *)
Theorem eliminar_deshacer (idT : Z) (n : string) (m m1 : ManejadorTareas) :
  eliminarTarea idT n m = (m1, Imprime (TareaEliminada idT)) →
  ∃ p t l1 l2,
    encontrarCategoria m None (Some n) = Some p ∧
    tarea_id <$> objetos m !! t = Some idT ∧
    tareas_de p (categorias m) = l1 ++ t :: l2 ∧ (t ∉ l1) ∧
    tareas_de p (categorias m1) = l1 ++ l2 ∧
    (deshacer m1).2 = Imprime AccionDeshecha ∧
    tareas_de p (categorias (deshacer m1).1) = (l1 ++ l2) ++ [t] ∧
    (∀ q, q ≠ p →
       tareas_de q (categorias (deshacer m1).1) = tareas_de q (categorias m)) ∧
    objetos (deshacer m1).1 = objetos m.
Proof.
  unfold eliminarTarea.
  destruct (encontrarCategoria m None (Some n)) as [p|] eqn:Hp; [|done].
  destruct (buscarTarea _ _ idT) as [t|] eqn:Ht; [|done].
  destruct (quitar t _) as [l|] eqn:Hq; [|done].
  intros [= <-].
  apply encontrarCategoria_Some in Hp as (c & Hc & _).
  apply buscarTarea_Some in Ht as [_ Hid].
  apply quitar_Some in Hq as (l1 & l2 & Hl & Hnot & ->).
  exists p, t, l1, l2. cbn.
  assert (obtener p (poner_tareas p (l1 ++ l2) (categorias m))
          = Some (con_tareas (l1 ++ l2) c)) as Hc'
    by (by apply obtener_actualizar).
  rewrite !(tareas_de_poner_tareas _ _ _ _ Hc).
  rewrite (tareas_de_poner_tareas _ _ _ _ Hc').
  split_and!; try done.
  intros q Hq. by rewrite !tareas_de_poner_tareas_otra.
Qed.

Lemma eliminar_deshacer_witness :
  ∃ p t l1 l2,
    encontrarCategoria ejemplo None (Some "Trabajo") = Some p ∧
    tarea_id <$> objetos ejemplo !! t = Some 1 ∧
    tareas_de p (categorias ejemplo) = l1 ++ t :: l2 ∧ (t ∉ l1) ∧
    tareas_de p (categorias (eliminarTarea 1 "Trabajo" ejemplo).1) = l1 ++ l2 ∧
    (deshacer (eliminarTarea 1 "Trabajo" ejemplo).1).2 = Imprime AccionDeshecha ∧
    tareas_de p (categorias (deshacer (eliminarTarea 1 "Trabajo" ejemplo).1).1)
      = (l1 ++ l2) ++ [t] ∧
    (∀ q, q ≠ p →
       tareas_de q (categorias (deshacer (eliminarTarea 1 "Trabajo" ejemplo).1).1)
       = tareas_de q (categorias ejemplo)) ∧
    objetos (deshacer (eliminarTarea 1 "Trabajo" ejemplo).1).1 = objetos ejemplo.
Proof.
  apply (eliminar_deshacer 1 "Trabajo" ejemplo). reflexivity.
Defined.

(** ** The two histories *)

(** C4: a successful [agregarTarea], [eliminarTarea] or [modificarTarea]
    pushes exactly one record on [historial_acciones] and leaves
    [historial_deshacer] as it is; a successful [deshacer] moves the top
    record of [historial_acciones] onto [historial_deshacer]; a successful
    [rehacer] moves the top record of [historial_deshacer] onto
    [historial_acciones]. *)
Theorem historiales (m m' : ManejadorTareas) :
  (∀ t d pr f n,
     agregarTarea t d pr f n m = (m', Imprime (TareaAgregada t n)) →
     ∃ a, historial_acciones m' = a :: historial_acciones m ∧
          historial_deshacer m' = historial_deshacer m) ∧
  (∀ i n,
     eliminarTarea i n m = (m', Imprime (TareaEliminada i)) →
     ∃ a, historial_acciones m' = a :: historial_acciones m ∧
          historial_deshacer m' = historial_deshacer m) ∧
  (∀ i t d pr f n,
     modificarTarea i t d pr f n m = (m', Imprime (TareaModificada t)) →
     ∃ a, historial_acciones m' = a :: historial_acciones m ∧
          historial_deshacer m' = historial_deshacer m) ∧
  (deshacer m = (m', Imprime AccionDeshecha) →
     ∃ a, historial_acciones m = a :: historial_acciones m' ∧
          historial_deshacer m' = a :: historial_deshacer m) ∧
  (rehacer m = (m', Imprime AccionRehecha) →
     ∃ a, historial_deshacer m = a :: historial_deshacer m' ∧
          historial_acciones m' = a :: historial_acciones m).
Proof.
  split_and!.
  - intros t d pr f n. unfold agregarTarea.
    destruct (encontrarCategoria _ _ _); [|done]. intros [= <-]. eauto.
  - intros i n. unfold eliminarTarea.
    destruct (encontrarCategoria _ _ _); [|done].
    destruct (buscarTarea _ _ _); [|done].
    destruct (quitar _ _); [|done]. intros [= <-]. eauto.
  - intros i t d pr f n. unfold modificarTarea.
    destruct (encontrarCategoria _ _ _); [|done].
    destruct (buscarTarea _ _ _); [|done]. intros [= <-]. eauto.
  - unfold deshacer. destruct (historial_acciones m) as [|a h]; [done|].
    destruct a as [t c|t c|ta t c]; [destruct (quitar _ _); [|done]|..];
      intros [= <-]; eauto.
  - unfold rehacer. destruct (historial_deshacer m) as [|a h]; [done|].
    destruct a as [t c|t c|ta t c]; [|destruct (quitar _ _); [|done]|];
      intros [= <-]; eauto.
Qed.

Lemma historiales_witness :
  (∃ a, historial_deshacer (deshacer ejemplo).1
          = a :: historial_deshacer (rehacer (deshacer ejemplo).1).1 ∧
        historial_acciones (rehacer (deshacer ejemplo).1).1
          = a :: historial_acciones (deshacer ejemplo).1) ∧
  (∃ a, historial_acciones (eliminarTarea 2 "Trabajo" ejemplo).1
          = a :: historial_acciones ejemplo ∧
        historial_deshacer (eliminarTarea 2 "Trabajo" ejemplo).1
          = historial_deshacer ejemplo).
Proof.
  split.
  - destruct (historiales (deshacer ejemplo).1 (rehacer (deshacer ejemplo).1).1)
      as (_ & _ & _ & _ & H).
    destruct (H eq_refl) as (a & H1 & H2). exists a. split; [exact H1|exact H2].
  - destruct (historiales ejemplo (eliminarTarea 2 "Trabajo" ejemplo).1)
      as (_ & H & _).
    exact (H 2 "Trabajo" eq_refl).
Defined.

(** ** Processing an urgent task *)

(** C10: when the named category exists and its urgent queue is not empty,
    [procesarTareaUrgente] removes the head of that queue and prints it.
    Nothing else changes: the category keeps its id, name, tasks and
    subcategories, every task list and every other queue is as before, and
    so are the task objects, both histories and both counters. *)
Theorem procesarTareaUrgente_marco (n : string) (m : ManejadorTareas)
    (p : Ruta) (c : Categoria) (t : ref) (resto : list ref) :
  encontrarCategoria m None (Some n) = Some p →
  obtener p (categorias m) = Some c →
  tareasUrgentes c = t :: resto →
  ∃ m',
    procesarTareaUrgente n m
      = (m', Imprime (ProcesandoTareaUrgente (leer (objetos m) t))) ∧
    obtener p (categorias m') = Some (con_tareasUrgentes resto c) ∧
    (∀ q, tareas_de q (categorias m') = tareas_de q (categorias m)) ∧
    (∀ q, q ≠ p →
       campos <$> obtener q (categorias m') = campos <$> obtener q (categorias m)) ∧
    objetos m' = objetos m ∧
    historial_acciones m' = historial_acciones m ∧
    historial_deshacer m' = historial_deshacer m ∧
    idCategoria m' = idCategoria m ∧
    idTarea m' = idTarea m.
Proof.
  intros Hp Hc Hq. unfold procesarTareaUrgente. rewrite Hp.
  unfold urgentes_de at 1. rewrite Hc, Hq.
  eexists. split; [reflexivity|]. cbn.
  split_and!; try done.
  - by apply obtener_actualizar.
  - intros q. apply tareas_de_poner_urgentes.
  - intros q Hne. unfold poner_urgentes.
    apply (obtener_actualizar_proy campos); auto.
Qed.

Lemma procesarTareaUrgente_marco_witness :
  ∃ m',
    procesarTareaUrgente "Trabajo" ejemplo
      = (m', Imprime (ProcesandoTareaUrgente
                        (mkTareas 3 "Llamada" "cliente" 1 739100))) ∧
    tareasUrgentes <$> obtener [0%nat] (categorias m') = Some [3%nat] ∧
    tareas_de [0%nat] (categorias m') = [0%nat; 1%nat] ∧
    idTarea m' = 5.
Proof.
  destruct (procesarTareaUrgente_marco "Trabajo" ejemplo [0%nat]
              (mkCategoria 1 "Trabajo" [mkCategoria 2 "Urgente" [] [] []]
                 [2%nat; 3%nat] [0%nat; 1%nat])
              2%nat [3%nat] eq_refl eq_refl eq_refl)
    as (m' & Hr & Hc & Ht & _ & _ & _ & _ & _ & Hid).
  exists m'. split; [exact Hr|]. split; [by rewrite Hc|].
  split; [by rewrite Ht|]. by rewrite Hid.
Defined.

(** When the urgent queue is empty, [procesarTareaUrgente] reports it and
    leaves the manager as it is. *)
Lemma procesarTareaUrgente_vacia n m p :
  encontrarCategoria m None (Some n) = Some p →
  urgentes_de p (categorias m) = [] →
  procesarTareaUrgente n m = (m, Imprime NoHayTareasUrgentes).
Proof. intros Hp Hq. unfold procesarTareaUrgente. by rewrite Hp, Hq. Qed.

(** ** Modifying a task, undo and redo *)

Lemma modificar_deshacer_rehacer i t d pr f n m m1 :
  modificarTarea i t d pr f n m = (m1, Imprime (TareaModificada t)) →
  ∃ p r v,
    encontrarCategoria m None (Some n) = Some p ∧
    r ∈ tareas_de p (categorias m) ∧
    objetos m !! r = Some v ∧ tarea_id v = i ∧
    objetos m1 !! r = Some (mkTareas i t d pr f) ∧
    (deshacer m1).2 = Imprime AccionDeshecha ∧
    objetos (deshacer m1).1 !! r = Some v ∧
    (rehacer (deshacer m1).1).2 = Imprime AccionRehecha ∧
    objetos (rehacer (deshacer m1).1).1 !! r = Some v.
Proof.
  unfold modificarTarea.
  destruct (encontrarCategoria m None (Some n)) as [p|] eqn:Hp; [|done].
  destruct (buscarTarea _ _ i) as [r|] eqn:Hr; [|done].
  intros [= <-]. apply buscarTarea_Some in Hr as [Hin Hid].
  destruct (objetos m !! r) as [v|] eqn:Hv; [|done].
  injection Hid as Hid. exists p, r, v.
  assert (r < length (objetos m))%nat as Hlt by (by eapply lookup_lt_Some).
  rewrite (leer_lookup _ _ _ Hv). destruct v as [vi vt vd vp vf]; simpl in Hid.
  subst vi. cbn.
  set (copia := mkTareas i vt vd vp vf).
  set (objs1 := alter _ r (objetos m ++ [copia])).
  assert (objs1 !! r = Some (mkTareas i t d pr f)) as H1.
  { unfold objs1. rewrite list_lookup_alter_eq, lookup_app_l, Hv by done. done. }
  assert (leer objs1 (length (objetos m)) = copia) as Hc1.
  { apply leer_lookup. unfold objs1. rewrite list_lookup_alter_ne by lia.
    by rewrite lookup_app_r, Nat.sub_diag by lia. }
  assert (copiar_campos (length (objetos m)) r objs1 !! r = Some copia) as H2.
  { unfold copiar_campos. by rewrite list_lookup_alter_eq, Hc1, H1. }
  assert (leer (copiar_campos (length (objetos m)) r objs1) (length (objetos m))
          = copia) as Hc2.
  { apply leer_lookup. unfold copiar_campos.
    rewrite list_lookup_alter_ne by lia. unfold objs1.
    rewrite list_lookup_alter_ne by lia.
    by rewrite lookup_app_r, Nat.sub_diag by lia. }
  split_and!; try done.
  unfold copiar_campos at 1. by rewrite list_lookup_alter_eq, Hc2, H2.
Qed.

(** C1: the run [modificar_y_rehacer].  The modification gives the task its
    new field values and [deshacer] brings the old ones back, but [rehacer]
    then leaves the old values in place: it copies the fields of
    [tarea_anterior] once more. *)
Theorem rehacer_modificar_deja_valores_anteriores :
  salidas modificar_y_rehacer inicial =
    [ Imprime (CategoriaAgregada "Trabajo");
      Imprime (TareaAgregada "Informe" "Trabajo");
      Imprime (TareaModificada "Informe final");
      Imprime AccionDeshecha;
      Imprime AccionRehecha ] ∧
  objetos (estado (take 2 modificar_y_rehacer) inicial) !! 0%nat
    = Some (mkTareas 1 "Informe" "anual" 1 741000) ∧
  objetos (estado (take 3 modificar_y_rehacer) inicial) !! 0%nat
    = Some (mkTareas 1 "Informe final" "trimestral" 2 741030) ∧
  objetos (estado (take 4 modificar_y_rehacer) inicial) !! 0%nat
    = Some (mkTareas 1 "Informe" "anual" 1 741000) ∧
  objetos (estado modificar_y_rehacer inicial) !! 0%nat
    = Some (mkTareas 1 "Informe" "anual" 1 741000) ∧
  tareas_de [0%nat] (categorias (estado modificar_y_rehacer inicial)) = [0%nat].
Proof. by vm_compute. Qed.

(** ** A stale record on the redo history *)



(** C2: the run [rehacer_obsoleto].  The last [rehacer] finds on
    [historial_deshacer] the record of the first removal, whose task the
    second removal has already taken out of the list: [list.remove] raises
    [ValueError], and the record is lost from both histories. *)
Theorem rehacer_obsoleto_lanza_ValueError :
  salidas rehacer_obsoleto inicial =
    [ Imprime (CategoriaAgregada "Trabajo");
      Imprime (TareaAgregada "Informe" "Trabajo");
      Imprime (TareaEliminada 1);
      Imprime AccionDeshecha;
      Imprime (TareaEliminada 1);
      Lanza ValueError ] ∧
  historial_deshacer (estado (take 5 rehacer_obsoleto) inicial)
    = [eliminar 0%nat [0%nat]] ∧
  tareas_de [0%nat] (categorias (estado (take 5 rehacer_obsoleto) inicial)) = [] ∧
  historial_deshacer (estado rehacer_obsoleto inicial) = [] ∧
  historial_acciones (estado rehacer_obsoleto inicial)
    = [eliminar 0%nat [0%nat]; agregar 0%nat [0%nat]].
Proof. by vm_compute. Qed.

(** ** Category names *)

(** [agregarSubcategoria] accepts a name that is already in use: after the
    run [subcategoria_homonima] the forest has two categories named
    "Trabajo". *)
Lemma subcategoria_homonima_repite_nombre :
  salidas subcategoria_homonima inicial =
    [ Imprime (CategoriaAgregada "Trabajo");
      Imprime (SubcategoriaAgregada "Trabajo" "Trabajo") ] ∧
  nombres (categorias (estado subcategoria_homonima inicial))
    = ["Trabajo"; "Trabajo"] ∧
  ¬ NoDup (nombres (categorias (estado subcategoria_homonima inicial))).
Proof.
  split_and!; [by vm_compute..|].
  intros H. vm_compute in H. apply NoDup_cons in H as [H _].
  apply H. by left.
Qed.

(** ** Mutations seen through routes *)

Lemma obtener_actualizar_existe f p q cs :
  (∀ c, subcategorias (f c) = subcategorias c) →
  obtener q (actualizar f p cs) = None ↔ obtener q cs = None.
Proof.
  intros Hf.
  pose proof (obtener_actualizar_proy (λ _, ()) f p q cs Hf) as H.
  destruct (obtener q (actualizar f p cs)), (obtener q cs);
    try done; by (discriminate H; auto).
Qed.

Lemma tareas_de_poner_tareas_elem p q l cs r :
  r ∈ tareas_de q (poner_tareas p l cs) → r ∈ l ∨ r ∈ tareas_de q cs.
Proof.
  destruct (decide (q = p)) as [->|Hne];
    [|rewrite tareas_de_poner_tareas_otra by done; auto].
  destruct (obtener p cs) as [c|] eqn:Hc.
  - rewrite (tareas_de_poner_tareas _ _ _ _ Hc). auto.
  - unfold tareas_de, poner_tareas.
    apply (obtener_actualizar_existe (con_tareas l) p p) in Hc as ->; [|done].
    by intros ?%elem_of_nil.
Qed.

Lemma urgentes_de_poner_urgentes_elem p q l cs r :
  r ∈ urgentes_de q (poner_urgentes p l cs) → r ∈ l ∨ r ∈ urgentes_de q cs.
Proof.
  destruct (decide (q = p)) as [->|Hne];
    [|rewrite urgentes_de_poner_urgentes_otra by done; auto].
  destruct (obtener p cs) as [c|] eqn:Hc.
  - rewrite (urgentes_de_poner_urgentes _ _ _ _ Hc). auto.
  - unfold urgentes_de, poner_urgentes.
    apply (obtener_actualizar_existe (con_tareasUrgentes l) p p) in Hc as ->;
      [|done].
    by intros ?%elem_of_nil.
Qed.

(** Appending a new category without subcategories: a route denotes what
    it denoted before, or the new category. *)
Lemma obtener_app_nueva {B} (g : Categoria → B) q cs nueva :
  subcategorias nueva = [] →
  g <$> obtener q (cs ++ [nueva]) = g <$> obtener q cs ∨
  g <$> obtener q (cs ++ [nueva]) = Some (g nueva).
Proof.
  intros Hn. destruct q as [|i q]; [by left|]. rewrite !obtener_cons.
  destruct (decide (i < length cs)%nat) as [Hlt|Hge].
  - left. by rewrite lookup_app_l.
  - rewrite (lookup_ge_None_2 cs i) by lia.
    rewrite lookup_app_r by lia.
    destruct (i - length cs)%nat as [|k]; simpl; [|by left].
    destruct q as [|j q]; [by right|left]. by rewrite Hn.
Qed.

Lemma obtener_agregarSubcategoria {B} (g : Categoria → B) i n p q cs :
  (∀ c s, g (con_subcategorias c s) = g c) →
  g <$> obtener q (actualizar (Categoria_agregarSubcategoria i n) p cs)
    = g <$> obtener q cs ∨
  g <$> obtener q (actualizar (Categoria_agregarSubcategoria i n) p cs)
    = Some (g (mkCategoria i n [] [] [])).
Proof.
  intros Hg. revert q cs. induction p as [|k p IH]; intros q cs; [by left|].
  cbn [actualizar]. destruct (cs !! k) as [c0|] eqn:Hk; [|by left].
  destruct q as [|j q]; [by left|]. rewrite !obtener_cons.
  destruct (decide (j = k)) as [->|Hne]; [|left; by rewrite list_lookup_insert_ne].
  rewrite list_lookup_insert_eq by (by eapply lookup_lt_Some).
  rewrite Hk. cbn [mbind option_bind].
  destruct p as [|k' p], q as [|j' q]; cbn [fmap option_fmap option_map].
  - left. unfold Categoria_agregarSubcategoria. by rewrite Hg.
  - unfold Categoria_agregarSubcategoria. cbn [subcategorias con_subcategorias].
    by apply obtener_app_nueva.
  - left. by rewrite Hg.
  - cbn [subcategorias con_subcategorias]. apply IH.
Qed.

(** ** Mutations the search cannot see *)

Lemma buscarEnSubcategorias_insert cs k c0 x i id nom :
  cs !! k = Some c0 →
  encontrarCategoriaEnSubcategorias x id nom
    = encontrarCategoriaEnSubcategorias c0 id nom →
  buscarEnSubcategorias (<[k:=x]> cs) i id nom = buscarEnSubcategorias cs i id nom.
Proof.
  intros Hk Hx. revert k i Hk.
  induction cs as [|c cs IH]; intros [|k] i Hk; simplify_eq/=.
  - by rewrite Hx.
  - by rewrite (IH k).
Qed.

Lemma buscarEnSubcategorias_actualizar f p cs i id nom :
  (∀ c, categoria_id (f c) = categoria_id c) →
  (∀ c, nombre (f c) = nombre c) →
  (∀ c, subcategorias (f c) = subcategorias c) →
  buscarEnSubcategorias (actualizar f p cs) i id nom
    = buscarEnSubcategorias cs i id nom.
Proof.
  intros Hid Hnom Hsub. revert cs i.
  induction p as [|k p IH]; intros cs i; [done|]. cbn [actualizar].
  destruct (cs !! k) as [c0|] eqn:Hk; [|done].
  apply buscarEnSubcategorias_insert with c0; [done|].
  rewrite !encontrarCategoriaEnSubcategorias_eq.
  destruct p as [|k' p].
  - unfold coincide. by rewrite Hid, Hnom, Hsub.
  - unfold coincide. cbn [categoria_id nombre subcategorias con_subcategorias].
    by rewrite IH.
Qed.

Lemma encontrarCategoria_actualizar f p m m' id nom :
  (∀ c, categoria_id (f c) = categoria_id c) →
  (∀ c, nombre (f c) = nombre c) →
  (∀ c, subcategorias (f c) = subcategorias c) →
  categorias m' = actualizar f p (categorias m) →
  encontrarCategoria m' id nom = encontrarCategoria m id nom.
Proof.
  intros ??? Hm. unfold encontrarCategoria.
  rewrite !buscarEnCategorias_eq, Hm.
  by apply buscarEnSubcategorias_actualizar.
Qed.

(** ** The invariant of a run *)

Lemma invariante_inicial : invariante inicial.
Proof.
  split.
  - intros r [[q Hq]|(a & [Ha|Ha] & _)].
    + destruct q; by apply elem_of_nil in Hq.
    + by apply elem_of_nil in Ha.
    + by apply elem_of_nil in Ha.
  - intros r [q Hq]. destruct q; by apply elem_of_nil in Hq.
  - intros r [q Hq]. destruct q; by apply elem_of_nil in Hq.
Qed.

(** One step keeps the invariant when it creates at most one new object
    and hands it to one side only. *)
Lemma invariante_paso_gen (nt nu : Prop) m m' :
  invariante m →
  (length (objetos m) ≤ length (objetos m'))%nat →
  (nt ∨ nu → (length (objetos m) < length (objetos m'))%nat) →
  ¬ (nt ∧ nu) →
  (∀ r, lado_tareas m' r → lado_tareas m r ∨ (nt ∧ r = length (objetos m))) →
  (∀ r, lado_urgentes m' r → lado_urgentes m r ∨ (nu ∧ r = length (objetos m))) →
  invariante m'.
Proof.
  intros [Ht Hu Hs] Hle Hlt Hno Ht' Hu'. split.
  - intros r [H|[H ->]]%Ht'; [apply Ht in H; lia|apply Hlt; auto].
  - intros r [H|[H ->]]%Hu'; [apply Hu in H; lia|apply Hlt; auto].
  - intros r [H1|[H1 ->]]%Hu' [H2|[H2 Heq]]%Ht'.
    + by apply (Hs r).
    + subst r. apply Hu in H1. lia.
    + apply Ht in H2. lia.
    + auto.
Qed.

Lemma invariante_sub m m' :
  invariante m →
  (length (objetos m) ≤ length (objetos m'))%nat →
  (∀ r, lado_tareas m' r → lado_tareas m r) →
  (∀ r, lado_urgentes m' r → lado_urgentes m r) →
  invariante m'.
Proof.
  intros Hi Hle Ht Hu.
  apply (invariante_paso_gen False False m m' Hi Hle); [tauto|tauto|auto..].
Qed.

Lemma quitar_elem t l l' r : quitar t l = Some l' → r ∈ l' → r ∈ l.
Proof.
  intros (l1 & l2 & -> & _ & ->)%quitar_Some.
  rewrite !elem_of_app, elem_of_cons. tauto.
Qed.

Lemma quitar_quitada t l l' : quitar t l = Some l' → t ∈ l.
Proof.
  intros (l1 & l2 & -> & _ & ->)%quitar_Some.
  rewrite elem_of_app, elem_of_cons. tauto.
Qed.

Lemma tareas_de_app_nueva q cs i n r :
  r ∈ tareas_de q (cs ++ [mkCategoria i n [] [] []]) → r ∈ tareas_de q cs.
Proof.
  rewrite !tareas_de_proy.
  destruct (obtener_app_nueva tareas q cs (mkCategoria i n [] [] []) eq_refl)
    as [->| ->]; [done|]. by intros ?%elem_of_nil.
Qed.

Lemma urgentes_de_app_nueva q cs i n r :
  r ∈ urgentes_de q (cs ++ [mkCategoria i n [] [] []]) → r ∈ urgentes_de q cs.
Proof.
  rewrite !urgentes_de_proy.
  destruct (obtener_app_nueva tareasUrgentes q cs (mkCategoria i n [] [] []) eq_refl)
    as [->| ->]; [done|]. by intros ?%elem_of_nil.
Qed.

Lemma tareas_de_agregarSubcategoria i n p q cs r :
  r ∈ tareas_de q (actualizar (Categoria_agregarSubcategoria i n) p cs) →
  r ∈ tareas_de q cs.
Proof.
  rewrite !tareas_de_proy.
  destruct (obtener_agregarSubcategoria tareas i n p q cs) as [->| ->];
    [done|done|]. by intros ?%elem_of_nil.
Qed.

Lemma urgentes_de_agregarSubcategoria i n p q cs r :
  r ∈ urgentes_de q (actualizar (Categoria_agregarSubcategoria i n) p cs) →
  r ∈ urgentes_de q cs.
Proof.
  rewrite !urgentes_de_proy.
  destruct (obtener_agregarSubcategoria tareasUrgentes i n p q cs) as [->| ->];
    [done|done|]. by intros ?%elem_of_nil.
Qed.

Lemma invariante_agregarCategoria n m :
  invariante m → invariante (agregarCategoria n m).1.
Proof.
  intros Hi. unfold agregarCategoria.
  destruct (encontrarCategoria m None (Some n)); [done|].
  apply (invariante_sub m); [done|done|..].
  - intros r [[q Hq]|H]; [left|by right].
    exists q. by apply tareas_de_app_nueva in Hq.
  - intros r [q Hq]. exists q. by apply urgentes_de_app_nueva in Hq.
Qed.

Lemma invariante_agregarSubcategoria n np m :
  invariante m → invariante (agregarSubcategoria n np m).1.
Proof.
  intros Hi. unfold agregarSubcategoria.
  destruct (encontrarCategoria m None (Some np)) as [p|]; [|done].
  apply (invariante_sub m); [done|done|..].
  - intros r [[q Hq]|H]; [left|by right].
    exists q. by apply tareas_de_agregarSubcategoria in Hq.
  - intros r [q Hq]. exists q. by apply urgentes_de_agregarSubcategoria in Hq.
Qed.

Lemma invariante_agregarTarea t d pr f n m :
  invariante m → invariante (agregarTarea t d pr f n m).1.
Proof.
  intros Hi. unfold agregarTarea.
  destruct (encontrarCategoria m None (Some n)) as [p|]; [|done].
  apply (invariante_paso_gen True False m); cbn; [done|..].
  - rewrite length_app; simpl; lia.
  - intros _. rewrite length_app; simpl; lia.
  - tauto.
  - intros r [[q Hq]|(a & [Ha|Ha] & Hr)].
    + apply tareas_de_poner_tareas_elem in Hq as [Hq|Hq].
      * apply elem_of_app in Hq as [Hq|Hq%list_elem_of_singleton];
          [left; left; by exists p|by right].
      * left; left; by exists q.
    + cbn in Ha. apply elem_of_cons in Ha as [->|Ha]; [by right|].
      left; right. exists a. split; [by left|done].
    + left; right. exists a. split; [by right|done].
  - intros r [q Hq]. left. exists q. cbn in Hq.
    by rewrite urgentes_de_poner_tareas in Hq.
Qed.

Lemma invariante_eliminarTarea i n m :
  invariante m → invariante (eliminarTarea i n m).1.
Proof.
  intros Hi. unfold eliminarTarea.
  destruct (encontrarCategoria m None (Some n)) as [p|]; [|done].
  destruct (buscarTarea _ _ i) as [t|]; [|done].
  destruct (quitar t _) as [l|] eqn:Hq; [|done].
  apply (invariante_sub m); [done|done|..].
  - intros r [[q Hr]|(a & [Ha|Ha] & Hr)].
    + cbn in Hr. apply tareas_de_poner_tareas_elem in Hr as [Hr|Hr].
      * left. exists p. by eapply quitar_elem.
      * left. by exists q.
    + cbn in Ha. apply elem_of_cons in Ha as [->|Ha].
      * left. exists p. cbn in Hr. subst r. by eapply quitar_quitada.
      * right. exists a. split; [by left|done].
    + right. exists a. split; [by right|done].
  - intros r [q Hr]. exists q. cbn in Hr.
    by rewrite urgentes_de_poner_tareas in Hr.
Qed.

Lemma invariante_modificarTarea i t d pr f n m :
  invariante m → invariante (modificarTarea i t d pr f n m).1.
Proof.
  intros Hi. unfold modificarTarea.
  destruct (encontrarCategoria m None (Some n)) as [p|]; [|done].
  destruct (buscarTarea _ _ i) as [r0|] eqn:Hb; [|done].
  apply buscarTarea_Some in Hb as [Hin _].
  apply (invariante_sub m); [done|..].
  - cbn. rewrite length_alter, length_app. lia.
  - intros r [[q Hr]|(a & [Ha|Ha] & Hr)].
    + left. by exists q.
    + cbn in Ha. apply elem_of_cons in Ha as [->|Ha].
      * left. exists p. cbn in Hr. by subst r.
      * right. exists a. split; [by left|done].
    + right. exists a. split; [by right|done].
  - intros r [q Hr]. by exists q.
Qed.

Lemma invariante_deshacer m : invariante m → invariante (deshacer m).1.
Proof.
  intros Hi. unfold deshacer.
  destruct (historial_acciones m) as [|a h] eqn:Hh; [done|].
  assert (∀ b, b ∈ h ∨ b ∈ a :: historial_deshacer m → en_historial m b) as Hen.
  { intros b [Hb|[->|Hb]%elem_of_cons]; unfold en_historial; rewrite Hh.
    - left. by right.
    - left. by left.
    - by right. }
  destruct a as [t c|t c|ta t c].
  - destruct (quitar t _) as [l|] eqn:Hq.
    + apply (invariante_sub m); [done|done|..].
      * intros r [[q Hr]|(b & Hb & Hr)].
        -- cbn in Hr. apply tareas_de_poner_tareas_elem in Hr as [Hr|Hr].
           ++ left. exists c. by eapply quitar_elem.
           ++ left. by exists q.
        -- right. exists b. split; [by apply Hen|done].
      * intros r [q Hr]. exists q. cbn in Hr.
        by rewrite urgentes_de_poner_tareas in Hr.
    + apply (invariante_sub m); [done|done|..].
      * intros r [[q Hr]|(b & Hb & Hr)]; [left; by exists q|].
        right. exists b. split; [|done]. apply Hen.
        destruct Hb as [Hb|Hb]; [by left|right; by right].
      * intros r [q Hr]. by exists q.
  - apply (invariante_sub m); [done|done|..].
    + intros r [[q Hr]|(b & Hb & Hr)].
      * cbn in Hr. apply tareas_de_poner_tareas_elem in Hr as [Hr|Hr].
        -- apply elem_of_app in Hr as [Hr|Hr%list_elem_of_singleton].
           ++ left. by exists c.
           ++ right. exists (eliminar t c). split; [|done].
              apply Hen. right. by left.
        -- left. by exists q.
      * right. exists b. split; [by apply Hen|done].
    + intros r [q Hr]. exists q. cbn in Hr.
      by rewrite urgentes_de_poner_tareas in Hr.
  - apply (invariante_sub m); [done|..].
    + cbn. unfold copiar_campos. by rewrite length_alter.
    + intros r [[q Hr]|(b & Hb & Hr)]; [left; by exists q|].
      right. exists b. split; [by apply Hen|done].
    + intros r [q Hr]. by exists q.
Qed.

Lemma invariante_rehacer m : invariante m → invariante (rehacer m).1.
Proof.
  intros Hi. unfold rehacer.
  destruct (historial_deshacer m) as [|a h] eqn:Hh; [done|].
  assert (∀ b, b ∈ a :: historial_acciones m ∨ b ∈ h → en_historial m b) as Hen.
  { intros b [[->|Hb]%elem_of_cons|Hb]; unfold en_historial; rewrite Hh.
    - right. by left.
    - by left.
    - right. by right. }
  destruct a as [t c|t c|ta t c].
  - apply (invariante_sub m); [done|done|..].
    + intros r [[q Hr]|(b & Hb & Hr)].
      * cbn in Hr. apply tareas_de_poner_tareas_elem in Hr as [Hr|Hr].
        -- apply elem_of_app in Hr as [Hr|Hr%list_elem_of_singleton].
           ++ left. by exists c.
           ++ right. exists (agregar t c). split; [|done].
              apply Hen. left. by left.
        -- left. by exists q.
      * right. exists b. split; [by apply Hen|done].
    + intros r [q Hr]. exists q. cbn in Hr.
      by rewrite urgentes_de_poner_tareas in Hr.
  - destruct (quitar t _) as [l|] eqn:Hq.
    + apply (invariante_sub m); [done|done|..].
      * intros r [[q Hr]|(b & Hb & Hr)].
        -- cbn in Hr. apply tareas_de_poner_tareas_elem in Hr as [Hr|Hr].
           ++ left. exists c. by eapply quitar_elem.
           ++ left. by exists q.
        -- right. exists b. split; [by apply Hen|done].
      * intros r [q Hr]. exists q. cbn in Hr.
        by rewrite urgentes_de_poner_tareas in Hr.
    + apply (invariante_sub m); [done|done|..].
      * intros r [[q Hr]|(b & Hb & Hr)]; [left; by exists q|].
        right. exists b. split; [|done]. apply Hen.
        destruct Hb as [Hb|Hb]; [left; by right|by right].
      * intros r [q Hr]. by exists q.
  - apply (invariante_sub m); [done|..].
    + cbn. unfold copiar_campos. by rewrite length_alter.
    + intros r [[q Hr]|(b & Hb & Hr)]; [left; by exists q|].
      right. exists b. split; [by apply Hen|done].
    + intros r [q Hr]. by exists q.
Qed.

Lemma invariante_agregarTareaUrgente t d pr f n m :
  invariante m → invariante (agregarTareaUrgente t d pr f n m).1.
Proof.
  intros Hi. unfold agregarTareaUrgente.
  destruct (encontrarCategoria m None (Some n)) as [p|]; [|done].
  apply (invariante_paso_gen False True m); cbn; [done|..].
  - rewrite length_app; simpl; lia.
  - intros _. rewrite length_app; simpl; lia.
  - tauto.
  - intros r [[q Hq]|H]; [|left; by right].
    left; left. exists q. cbn in Hq. by rewrite tareas_de_poner_urgentes in Hq.
  - intros r [q Hq]. cbn in Hq.
    apply urgentes_de_poner_urgentes_elem in Hq as [Hq|Hq]; [|left; by exists q].
    apply elem_of_app in Hq as [Hq|Hq%list_elem_of_singleton];
      [left; by exists p|by right].
Qed.

Lemma invariante_procesarTareaUrgente n m :
  invariante m → invariante (procesarTareaUrgente n m).1.
Proof.
  intros Hi. unfold procesarTareaUrgente.
  destruct (encontrarCategoria m None (Some n)) as [p|]; [|done].
  destruct (urgentes_de p (categorias m)) as [|t resto] eqn:Hu; [done|].
  apply (invariante_sub m); [done|done|..].
  - intros r [[q Hq]|H]; [|by right].
    left. exists q. cbn in Hq. by rewrite tareas_de_poner_urgentes in Hq.
  - intros r [q Hq]. cbn in Hq.
    apply urgentes_de_poner_urgentes_elem in Hq as [Hq|Hq]; [|by exists q].
    exists p. rewrite Hu. by right.
Qed.

Lemma invariante_mostrarTareasUrgentes n m :
  invariante m → invariante (mostrarTareasUrgentes n m).1.
Proof.
  intros Hi. unfold mostrarTareasUrgentes.
  destruct (encontrarCategoria m None (Some n)) as [p|]; [|done].
  by destruct (urgentes_de p (categorias m)).
Qed.

Lemma invariante_paso op m : invariante m → invariante (paso op m).1.
Proof.
  destruct op; simpl;
    eauto using invariante_agregarCategoria, invariante_agregarSubcategoria,
      invariante_agregarTarea, invariante_eliminarTarea,
      invariante_modificarTarea, invariante_deshacer, invariante_rehacer,
      invariante_agregarTareaUrgente, invariante_procesarTareaUrgente,
      invariante_mostrarTareasUrgentes.
Qed.

(** ** Runs, step by step *)

Lemma ejecutar_cons op ops m :
  ejecutar (op :: ops) m =
  ((ejecutar ops (paso op m).1).1, (paso op m).2 :: (ejecutar ops (paso op m).1).2).
Proof.
  simpl. destruct (paso op m) as [m1 r]. simpl.
  by destruct (ejecutar ops m1).
Qed.

Lemma estado_cons op ops m : estado (op :: ops) m = estado ops (paso op m).1.
Proof. unfold estado. by rewrite ejecutar_cons. Qed.

Lemma salidas_cons op ops m :
  salidas (op :: ops) m = (paso op m).2 :: salidas ops (paso op m).1.
Proof. unfold salidas. by rewrite ejecutar_cons. Qed.

Lemma estado_app ops1 ops2 m :
  estado (ops1 ++ ops2) m = estado ops2 (estado ops1 m).
Proof.
  revert m. induction ops1 as [|op ops1 IH]; intros m; [done|].
  simpl app. by rewrite !estado_cons, IH.
Qed.

Lemma salidas_app ops1 ops2 m :
  salidas (ops1 ++ ops2) m = salidas ops1 m ++ salidas ops2 (estado ops1 m).
Proof.
  revert m. induction ops1 as [|op ops1 IH]; intros m; [done|].
  simpl app. by rewrite !salidas_cons, estado_cons, IH.
Qed.

Lemma invariante_estado ops m : invariante m → invariante (estado ops m).
Proof.
  revert m. induction ops as [|op ops IH]; intros m Hi; [done|].
  rewrite estado_cons. by apply IH, invariante_paso.
Qed.

Lemma alcanzable_invariante m : alcanzable m → invariante m.
Proof. intros [ops ->]. apply invariante_estado, invariante_inicial. Qed.

Lemma alcanzable_paso op m : alcanzable m → alcanzable (paso op m).1.
Proof.
  intros [ops ->]. exists (ops ++ [op]). by rewrite estado_app, estado_cons.
Qed.

Lemma alcanzable_estado ops m : alcanzable m → alcanzable (estado ops m).
Proof.
  intros [ops0 ->]. exists (ops0 ++ ops). by rewrite estado_app.
Qed.

(** ** Adding a task and undoing it *)

Lemma poner_tareas_poner_tareas p l l' cs c :
  obtener p cs = Some c → tareas c = l →
  poner_tareas p l (poner_tareas p l' cs) = cs.
Proof.
  intros Hc Hl. unfold poner_tareas. rewrite actualizar_actualizar.
  apply actualizar_fijo with c; [done|].
  destruct c; simpl in *. by subst l.
Qed.

(** C5: in any state of a run, after a successful [agregarTarea] an
    immediate [deshacer] succeeds and the category's task list is exactly
    what it was before the task was added: same members, same order (the
    whole forest is back to what it was). *)
Theorem agregar_deshacer (t d : string) (pr : Z) (f : datetime) (n : string)
    (m m1 : ManejadorTareas) :
  alcanzable m →
  agregarTarea t d pr f n m = (m1, Imprime (TareaAgregada t n)) →
  ∃ p,
    encontrarCategoria m None (Some n) = Some p ∧
    tareas_de p (categorias m1)
      = tareas_de p (categorias m) ++ [length (objetos m)] ∧
    (deshacer m1).2 = Imprime AccionDeshecha ∧
    tareas_de p (categorias (deshacer m1).1) = tareas_de p (categorias m) ∧
    categorias (deshacer m1).1 = categorias m.
Proof.
  intros Hi%alcanzable_invariante. unfold agregarTarea.
  destruct (encontrarCategoria m None (Some n)) as [p|] eqn:Hp; [|done].
  intros [= <-]. exists p.
  apply encontrarCategoria_Some in Hp as (c & Hc & _).
  assert (length (objetos m) ∉ tareas_de p (categorias m)) as Hnueva.
  { intros Hin. assert (lado_tareas m (length (objetos m))) as Hl
      by (left; by exists p).
    apply (inv_tareas m Hi) in Hl. lia. }
  unfold deshacer. cbn [historial_acciones categorias].
  rewrite (tareas_de_poner_tareas _ _ _ _ Hc), (quitar_nueva _ _ Hnueva).
  cbn [fst snd categorias].
  assert (tareas c = tareas_de p (categorias m)) as Hl
    by (unfold tareas_de; by rewrite Hc).
  rewrite (poner_tareas_poner_tareas _ _ _ _ _ Hc Hl).
  by split_and!.
Qed.

Lemma agregar_deshacer_witness :
  ∃ p,
    encontrarCategoria ejemplo None (Some "Trabajo") = Some p ∧
    tareas_de p (categorias (agregarTarea "Acta" "reunion" 2 739300 "Trabajo" ejemplo).1)
      = tareas_de p (categorias ejemplo) ++ [length (objetos ejemplo)] ∧
    (deshacer (agregarTarea "Acta" "reunion" 2 739300 "Trabajo" ejemplo).1).2
      = Imprime AccionDeshecha ∧
    tareas_de p
      (categorias
         (deshacer (agregarTarea "Acta" "reunion" 2 739300 "Trabajo" ejemplo).1).1)
      = tareas_de p (categorias ejemplo) ∧
    categorias (deshacer (agregarTarea "Acta" "reunion" 2 739300 "Trabajo" ejemplo).1).1
      = categorias ejemplo.
Proof.
  apply (agregar_deshacer "Acta" "reunion" 2 739300 "Trabajo" ejemplo).
  - by exists escenario.
  - reflexivity.
Defined.

(** ** Task ids *)

Lemma StronglySorted_seqZ a n : StronglySorted Z.lt (seqZ a n).
Proof.
  destruct (decide (n ≤ 0)) as [Hn|Hn]; [rewrite seqZ_nil by done; constructor|].
  rewrite <- (Z2Nat.id n) by lia. generalize (Z.to_nat n) as k. clear.
  intros k. revert a. induction k as [|k IH]; intros a.
  - rewrite seqZ_nil by done. constructor.
  - rewrite seqZ_cons by lia. constructor.
    + replace (Z.pred (Z.of_nat (S k))) with (Z.of_nat k) by lia. apply IH.
    + apply Forall_seqZ. lia.
Qed.

Lemma idTarea_paso op m :
  asignados op m = seqZ (idTarea m) (idTarea (paso op m).1 - idTarea m) ∧
  idTarea m ≤ idTarea (paso op m).1 ≤ idTarea m + 1.
Proof.
  assert (∀ a, seqZ a (a - a) = []) as H0 by (intros; by rewrite seqZ_nil by lia).
  assert (∀ a, seqZ a (a + 1 - a) = [a]) as H1.
  { intros a. replace (a + 1 - a) with 1 by lia.
    rewrite seqZ_cons by lia. by rewrite seqZ_nil by lia. }
  destruct op; unfold asignados; simpl paso; abrir_paso;
    rewrite ?drop_app_length, ?drop_all, ?H0, ?H1; (split; [done|lia]).
Qed.

Lemma idTarea_estado ops m :
  ids_asignados ops m = seqZ (idTarea m) (idTarea (estado ops m) - idTarea m) ∧
  idTarea m ≤ idTarea (estado ops m).
Proof.
  revert m. induction ops as [|op ops IH]; intros m.
  - unfold estado; simpl. split; [by rewrite seqZ_nil by lia|lia].
  - rewrite estado_cons. simpl.
    destruct (idTarea_paso op m) as [-> Hop].
    destruct (IH (paso op m).1) as [-> Hops].
    split; [|lia].
    replace (idTarea (estado ops (paso op m).1) - idTarea m)
      with ((idTarea (paso op m).1 - idTarea m)
            + (idTarea (estado ops (paso op m).1) - idTarea (paso op m).1))
      by lia.
    rewrite seqZ_app by lia. do 2 f_equal. lia.
Qed.

Lemma ids_acotados_copiar_campos o dst objs k :
  Forall (λ t, 1 ≤ tarea_id t < k) objs →
  Forall (λ t, 1 ≤ tarea_id t < k) (copiar_campos o dst objs).
Proof. intros H. unfold copiar_campos. by apply Forall_alter. Qed.

Lemma ids_acotados_paso op m : ids_acotados m → ids_acotados (paso op m).1.
Proof.
  intros Hi. pose proof Hi as [H1 HF].
  assert (∀ t d pr f, Forall (λ t, 1 ≤ tarea_id t < idTarea m + 1)
                        (objetos m ++ [mkTareas (idTarea m) t d pr f]))
    as Hnueva.
  { intros t d pr f. apply Forall_app. split.
    - eapply Forall_impl; [exact HF|]. simpl. lia.
    - repeat constructor; simpl; lia. }
  destruct op; simpl paso; abrir_paso; try done;
    (split; cbn [idTarea objetos]; [lia|]);
    try apply Hnueva; try by apply ids_acotados_copiar_campos.
  match goal with H : buscarTarea _ _ _ = Some ?r |- _ =>
    apply buscarTarea_Some in H as [_ Hid];
    destruct (objetos m !! r) as [v|] eqn:Hv; [|done] end.
  rewrite (leer_lookup _ _ _ Hv).
  apply Forall_alter; [|done]. apply Forall_app. split; [done|].
  repeat constructor; simpl; by apply (proj1 (Forall_lookup _ _) HF _ v Hv).
Qed.

Lemma ids_acotados_estado ops m : ids_acotados m → ids_acotados (estado ops m).
Proof.
  revert m. induction ops as [|op ops IH]; intros m Hi; [done|].
  rewrite estado_cons. by apply IH, ids_acotados_paso.
Qed.

(** What a successful [agregarTarea] creates: a task object with the
    counter's value as id, at the end of the category's list. *)
Lemma agregarTarea_crea t d pr f n m m1 :
  agregarTarea t d pr f n m = (m1, Imprime (TareaAgregada t n)) →
  ∃ p, encontrarCategoria m None (Some n) = Some p ∧
       tareas_de p (categorias m1)
         = tareas_de p (categorias m) ++ [length (objetos m)] ∧
       objetos m1 !! length (objetos m) = Some (mkTareas (idTarea m) t d pr f) ∧
       asignados (OpAgregarTarea t d pr f n) m = [idTarea m] ∧
       idTarea m1 = idTarea m + 1.
Proof.
  intros H. unfold asignados. simpl paso. rewrite H. revert H.
  unfold agregarTarea.
  destruct (encontrarCategoria m None (Some n)) as [p|] eqn:Hp; [|done].
  intros [= <-]. exists p. apply encontrarCategoria_Some in Hp as (c & Hc & _).
  cbn. rewrite (tareas_de_poner_tareas _ _ _ _ Hc), drop_app_length.
  split_and!; try done.
  by rewrite lookup_app_r, Nat.sub_diag by lia.
Qed.

(** What a successful [agregarTareaUrgente] creates. *)
Lemma agregarTareaUrgente_crea t d pr f n m m1 tarea :
  agregarTareaUrgente t d pr f n m = (m1, Imprime (TareaUrgenteAnadida tarea)) →
  ∃ p, encontrarCategoria m None (Some n) = Some p ∧
       tarea = mkTareas (idTarea m) t d pr f ∧
       urgentes_de p (categorias m1)
         = urgentes_de p (categorias m) ++ [length (objetos m)] ∧
       objetos m1 !! length (objetos m) = Some tarea ∧
       asignados (OpAgregarTareaUrgente t d pr f n) m = [idTarea m] ∧
       idTarea m1 = idTarea m + 1.
Proof.
  intros H. unfold asignados. simpl paso. rewrite H. revert H.
  unfold agregarTareaUrgente.
  destruct (encontrarCategoria m None (Some n)) as [p|] eqn:Hp; [|done].
  intros [= <- <-]. exists p. apply encontrarCategoria_Some in Hp as (c & Hc & _).
  cbn. rewrite (urgentes_de_poner_urgentes _ _ _ _ Hc), drop_app_length.
  split_and!; try done.
  by rewrite lookup_app_r, Nat.sub_diag by lia.
Qed.

(** C9: in every run the task ids handed out by [agregarTarea] and
    [agregarTareaUrgente] (one shared counter) are 1, 2, 3, ... in the order
    of the calls: strictly increasing, hence pairwise distinct.  Every
    object ever created, removed or processed ones included, carries an id
    below the counter, and no operation ever lowers the counter, so an id is
    never handed out twice. *)
Theorem ids_de_tareas (ops : list Operacion) :
  ids_asignados ops inicial = seqZ 1 (idTarea (estado ops inicial) - 1) ∧
  StronglySorted Z.lt (ids_asignados ops inicial) ∧
  NoDup (ids_asignados ops inicial) ∧
  Forall (λ t, 1 ≤ tarea_id t < idTarea (estado ops inicial))
    (objetos (estado ops inicial)) ∧
  (∀ op,
     idTarea (estado ops inicial) ≤ idTarea (paso op (estado ops inicial)).1 ∧
     (asignados op (estado ops inicial) = [] ∨
      asignados op (estado ops inicial) = [idTarea (estado ops inicial)])) ∧
  (∀ ops', idTarea (estado ops inicial) ≤ idTarea (estado (ops ++ ops') inicial)).
Proof.
  destruct (idTarea_estado ops inicial) as [Hids Hle]. simpl in Hids.
  split_and!.
  - exact Hids.
  - rewrite Hids. apply StronglySorted_seqZ.
  - rewrite Hids. apply NoDup_seqZ.
  - apply ids_acotados_estado. split; [done|constructor].
  - intros op. destruct (idTarea_paso op (estado ops inicial)) as [Ha Hb].
    split; [lia|]. rewrite Ha.
    destruct (decide (idTarea (paso op (estado ops inicial)).1
                      = idTarea (estado ops inicial))) as [->|Hne].
    + left. by rewrite seqZ_nil by lia.
    + right. replace (idTarea (paso op (estado ops inicial)).1)
        with (idTarea (estado ops inicial) + 1) by lia.
      rewrite seqZ_cons by lia. by rewrite seqZ_nil by lia.
  - intros ops'. rewrite estado_app. apply idTarea_estado.
Qed.

(** ** Category names *)

Lemma nodos_lista cs i : snd <$> preorden_lista cs i = nodos cs.
Proof.
  unfold nodos, preorden. generalize 0%nat. revert i.
  induction cs as [|c cs IH]; intros i j; [done|]. simpl.
  rewrite !fmap_app, <- !list_fmap_compose. f_equal. apply IH.
Qed.

Lemma nodos_cons c cs : nodos (c :: cs) = c :: nodos (subcategorias c) ++ nodos cs.
Proof.
  unfold nodos at 1, preorden. cbn [preorden_lista].
  rewrite fmap_app, <- list_fmap_compose, nodos_lista, preorden_cat_eq.
  reflexivity.
Qed.

Lemma nodos_app cs1 cs2 : nodos (cs1 ++ cs2) = nodos cs1 ++ nodos cs2.
Proof.
  induction cs1 as [|c cs1 IH]; [done|]. simpl app.
  by rewrite !nodos_cons, IH, !app_assoc.
Qed.

Lemma elem_of_nodos c cs : c ∈ nodos cs ↔ ∃ r, obtener r cs = Some c.
Proof.
  unfold nodos. rewrite list_elem_of_fmap. split.
  - intros ([r c'] & -> & H%elem_of_preorden_obtener). by exists r.
  - intros [r H%elem_of_preorden_obtener]. by exists (r, c).
Qed.

Lemma raiz_en_nodos c cs : c ∈ cs → c ∈ nodos cs.
Proof.
  intros [i Hi]%list_elem_of_lookup. apply elem_of_nodos. exists [i].
  simpl. by rewrite Hi.
Qed.

Lemma encontrarCategoria_nombre_None m n :
  encontrarCategoria m None (Some n) = None ↔ n ∉ nombres (categorias m).
Proof.
  rewrite encontrarCategoria_primera. unfold nombres, nodos. split.
  - intros H%primera_None Hin.
    apply list_elem_of_fmap in Hin as (c & -> & Hin).
    apply list_elem_of_fmap in Hin as ([r c'] & -> & Hin).
    rewrite Forall_forall in H. specialize (H _ Hin). simpl in H.
    rewrite coincide_nombre in H. by apply bool_decide_eq_false in H.
  - intros Hn. destruct (primera _ _ _) as [r|] eqn:Hp; [|done].
    apply primera_Some in Hp as (c & a & d & Hl & Hc & _).
    rewrite coincide_nombre in Hc. apply bool_decide_eq_true in Hc.
    exfalso. apply Hn. rewrite <- Hc, Hl.
    rewrite !fmap_app, !fmap_cons. simpl.
    rewrite elem_of_app, elem_of_cons. auto.
Qed.

Lemma nombres_raices_actualizar f p cs :
  (∀ c, nombre (f c) = nombre c) →
  nombres_raices (actualizar f p cs) = nombres_raices cs.
Proof.
  intros Hf. unfold nombres_raices. destruct p as [|i p]; [done|].
  cbn [actualizar]. destruct (cs !! i) as [c|] eqn:Hi; [|done].
  rewrite list_fmap_insert. apply list_insert_id.
  rewrite list_lookup_fmap, Hi. simpl. f_equal.
  by destruct p.
Qed.

Lemma raices_sin_repetir_paso op m :
  NoDup (nombres_raices (categorias m)) →
  NoDup (nombres_raices (categorias (paso op m).1)).
Proof.
  intros Hnd. destruct op; simpl paso; abrir_paso;
    unfold poner_tareas, poner_urgentes;
    rewrite ?nombres_raices_actualizar; try done.
  match goal with H : encontrarCategoria _ _ _ = None |- _ =>
    apply encontrarCategoria_nombre_None in H; rename H into He end.
  unfold nombres_raices. rewrite fmap_app. simpl.
  apply NoDup_app. split_and!; [done| |apply NoDup_singleton].
  intros x Hx ->%list_elem_of_singleton. apply He.
  apply list_elem_of_fmap in Hx as (c & -> & Hc).
  apply list_elem_of_fmap. exists c. split; [done|by apply raiz_en_nodos].
Qed.

Lemma raices_sin_repetir_estado ops m :
  NoDup (nombres_raices (categorias m)) →
  NoDup (nombres_raices (categorias (estado ops m))).
Proof.
  revert m. induction ops as [|op ops IH]; intros m H; [done|].
  rewrite estado_cons. by apply IH, raices_sin_repetir_paso.
Qed.

(** ** The urgent queue is first in, first out *)

Lemma encontrarCategoria_poner_tareas m m' p l id nom :
  categorias m' = poner_tareas p l (categorias m) →
  encontrarCategoria m' id nom = encontrarCategoria m id nom.
Proof. by apply encontrarCategoria_actualizar. Qed.

Lemma encontrarCategoria_poner_urgentes m m' p l id nom :
  categorias m' = poner_urgentes p l (categorias m) →
  encontrarCategoria m' id nom = encontrarCategoria m id nom.
Proof. by apply encontrarCategoria_actualizar. Qed.

Lemma leer_copiar_campos o dst objs r :
  r ≠ dst → leer (copiar_campos o dst objs) r = leer objs r.
Proof.
  intros Hne. unfold leer, copiar_campos. by rewrite list_lookup_alter_ne.
Qed.

Lemma vista_copiar_campos n p vs k m m' a :
  vista n p vs k m →
  en_historial m a →
  invariante m' →
  categorias m' = categorias m →
  idTarea m' = idTarea m →
  (∃ o, objetos m' = copiar_campos o (tarea_de a) (objetos m)) →
  vista n p vs k m'.
Proof.
  intros [Hi Hc Hq Hk] Ha Hi' Hcs Hid (o & Ho). split; [done|..].
  - unfold encontrarCategoria in *. by rewrite Hcs.
  - rewrite Hcs, Ho, <- Hq. apply list_fmap_ext. intros j r Hr.
    apply leer_copiar_campos. intros ->.
    apply (inv_separadas m Hi (tarea_de a)).
    + exists p. by eapply list_elem_of_lookup_2.
    + right. by exists a.
  - congruence.
Qed.

Lemma vista_poner_tareas n p vs k m m' c l :
  vista n p vs k m →
  invariante m' →
  categorias m' = poner_tareas c l (categorias m) →
  objetos m' = objetos m →
  idTarea m' = idTarea m →
  vista n p vs k m'.
Proof.
  intros [Hi Hc Hq Hk] Hi' Hcs Ho Hid. split; [done|..].
  - by rewrite (encontrarCategoria_poner_tareas m m' c l).
  - by rewrite Hcs, Ho, urgentes_de_poner_tareas.
  - congruence.
Qed.

Lemma vista_mismo n p vs k m m' :
  vista n p vs k m →
  invariante m' →
  categorias m' = categorias m →
  objetos m' = objetos m →
  idTarea m' = idTarea m →
  vista n p vs k m'.
Proof.
  intros [Hi Hc Hq Hk] Hi' Hcs Ho Hid. split; [done|..].
  - unfold encontrarCategoria in *. by rewrite Hcs.
  - by rewrite Hcs, Ho.
  - congruence.
Qed.

Lemma vista_deshacer n p vs k m :
  vista n p vs k m →
  vista n p vs k (deshacer m).1 ∧ procesadas [(deshacer m).2] = [].
Proof.
  intros Hv. pose proof (invariante_deshacer m (vista_inv _ _ _ _ _ Hv)) as Hi'.
  revert Hi'. unfold deshacer.
  destruct (historial_acciones m) as [|a h] eqn:Hh; [done|].
  assert (en_historial m a) as Ha by (left; rewrite Hh; by left).
  destruct a as [t c|t c|ta t c].
  - destruct (quitar t _) as [l|]; intros Hi'; (split; [|done]).
    + by eapply vista_poner_tareas.
    + by eapply vista_mismo.
  - intros Hi'. split; [|done]. by eapply vista_poner_tareas.
  - intros Hi'. split; [|done].
    eapply (vista_copiar_campos _ _ _ _ m); [done|exact Ha|done..|].
    by exists ta.
Qed.

Lemma vista_rehacer n p vs k m :
  vista n p vs k m →
  vista n p vs k (rehacer m).1 ∧ procesadas [(rehacer m).2] = [].
Proof.
  intros Hv. pose proof (invariante_rehacer m (vista_inv _ _ _ _ _ Hv)) as Hi'.
  revert Hi'. unfold rehacer.
  destruct (historial_deshacer m) as [|a h] eqn:Hh; [done|].
  assert (en_historial m a) as Ha by (right; rewrite Hh; by left).
  destruct a as [t c|t c|ta t c].
  - intros Hi'. split; [|done]. by eapply vista_poner_tareas.
  - destruct (quitar t _) as [l|]; intros Hi'; (split; [|done]).
    + by eapply vista_poner_tareas.
    + by eapply vista_mismo.
  - intros Hi'. split; [|done].
    eapply (vista_copiar_campos _ _ _ _ m); [done|exact Ha|done..|].
    by exists ta.
Qed.

Lemma procesadas_app rs1 rs2 :
  procesadas (rs1 ++ rs2) = procesadas rs1 ++ procesadas rs2.
Proof. apply omap_app. Qed.

Lemma procesadas_cons_nada r rs :
  procesadas [r] = [] → procesadas (r :: rs) = procesadas rs.
Proof.
  intros H. change (r :: rs) with ([r] ++ rs). by rewrite procesadas_app, H.
Qed.

Lemma procesadas_cons_procesando v rs :
  procesadas (Imprime (ProcesandoTareaUrgente v) :: rs) = v :: procesadas rs.
Proof. done. Qed.

Lemma vista_historiales n p vs k hs m :
  Forall es_historial hs →
  vista n p vs k m →
  vista n p vs k (estado hs m) ∧ procesadas (salidas hs m) = [].
Proof.
  intros Hhs. revert m. induction Hhs as [|op hs Hop _ IH]; intros m Hv; [done|].
  rewrite estado_cons, salidas_cons.
  change (?r :: ?rs) with ([r] ++ rs). rewrite procesadas_app.
  destruct Hop as [-> | ->]; simpl paso.
  - destruct (vista_deshacer _ _ _ _ _ Hv) as [Hv' ->].
    by apply IH.
  - destruct (vista_rehacer _ _ _ _ _ Hv) as [Hv' ->].
    by apply IH.
Qed.

Lemma vista_encolar n p vs k x m :
  vista n p vs k m →
  vista n p (vs ++ [con_id k x]) (k + 1) (paso (encolar x n) m).1 ∧
  procesadas [(paso (encolar x n) m).2] = [].
Proof.
  intros Hv.
  pose proof (invariante_paso (encolar x n) m (vista_inv _ _ _ _ _ Hv)) as Hi'.
  destruct Hv as [Hi Hc Hq Hk]. revert Hi'. unfold encolar. simpl paso.
  unfold agregarTareaUrgente. rewrite Hc. cbn [fst snd]. intros Hi'.
  split; [|done].
  destruct (encontrarCategoria_Some _ _ _ _ Hc) as (c & Hobt & _).
  split; [done|..]; cbn [objetos categorias idTarea].
  - by rewrite (encontrarCategoria_poner_urgentes m _ p
                  (urgentes_de p (categorias m) ++ [length (objetos m)])).
  - rewrite (urgentes_de_poner_urgentes _ _ _ _ Hobt), fmap_app. f_equal.
    + rewrite <- Hq. apply list_fmap_ext. intros j r Hr. unfold leer.
      rewrite lookup_app_l; [done|]. apply (inv_urgentes m Hi).
      exists p. by eapply list_elem_of_lookup_2.
    + simpl. unfold leer. rewrite lookup_app_r, Nat.sub_diag by lia.
      simpl. by rewrite Hk.
  - by rewrite Hk.
Qed.

Lemma vista_procesar n p v vs k m :
  vista n p (v :: vs) k m →
  vista n p vs k (procesarTareaUrgente n m).1 ∧
  (procesarTareaUrgente n m).2 = Imprime (ProcesandoTareaUrgente v).
Proof.
  intros Hv.
  pose proof (invariante_procesarTareaUrgente n m (vista_inv _ _ _ _ _ Hv)) as Hi'.
  destruct Hv as [Hi Hc Hq Hk]. revert Hi'.
  unfold procesarTareaUrgente. rewrite Hc.
  destruct (urgentes_de p (categorias m)) as [|r q] eqn:Hu; [done|].
  injection Hq as Hr Hq. cbn [fst snd]. intros Hi'. split; [|by rewrite Hr].
  destruct (encontrarCategoria_Some _ _ _ _ Hc) as (c & Hobt & _).
  split; [done|..]; cbn [objetos categorias idTarea]; [|by rewrite (urgentes_de_poner_urgentes _ _ _ _ Hobt)|done].
  by rewrite (encontrarCategoria_poner_urgentes m _ p q).
Qed.

Lemma alcanzable_vista n p m :
  alcanzable m →
  encontrarCategoria m None (Some n) = Some p →
  vista n p (leer (objetos m) <$> urgentes_de p (categorias m)) (idTarea m) m.
Proof. intros Ha Hp. split; [by apply alcanzable_invariante|done..]. Qed.

(** C8: in any state of a run, put three urgent tasks on the queue of a
    category and call [procesarTareaUrgente] three times, with any calls of
    [deshacer] and [rehacer] in between (whatever they do, raising
    included).  The three calls print the first three tasks of the queue in
    the order in which they were put on it: tasks that were already waiting
    come first, in their order, then the new ones; on a queue that was
    empty these are the three new tasks, in the order of their calls.  On
    an empty queue [procesarTareaUrgente] reports that there is nothing to
    process and changes nothing. *)
Theorem urgentes_fifo (m : ManejadorTareas) (n : string) (p : Ruta)
    (x1 x2 x3 : Tareas) (h1 h2 h3 h4 h5 : list Operacion) :
  alcanzable m →
  encontrarCategoria m None (Some n) = Some p →
  Forall es_historial (h1 ++ h2 ++ h3 ++ h4 ++ h5) →
  procesadas (salidas (tres_urgentes n x1 x2 x3 h1 h2 h3 h4 h5) m)
    = take 3 ((leer (objetos m) <$> urgentes_de p (categorias m)) ++
              [con_id (idTarea m) x1; con_id (idTarea m + 1) x2;
               con_id (idTarea m + 2) x3]) ∧
  (urgentes_de p (categorias m) = [] →
     procesadas (salidas (tres_urgentes n x1 x2 x3 h1 h2 h3 h4 h5) m)
       = [con_id (idTarea m) x1; con_id (idTarea m + 1) x2;
          con_id (idTarea m + 2) x3]) ∧
  (urgentes_de p (categorias m) = [] →
     procesarTareaUrgente n m = (m, Imprime NoHayTareasUrgentes)).
Proof.
  intros Ha Hp Hhs.
  rewrite !Forall_app in Hhs. destruct Hhs as (Hh1 & Hh2 & Hh3 & Hh4 & Hh5).
  pose proof (alcanzable_vista n p m Ha Hp) as V0.
  set (vs0 := leer (objetos m) <$> urgentes_de p (categorias m)) in *.
  set (k := idTarea m) in *.
  assert (procesadas (salidas (tres_urgentes n x1 x2 x3 h1 h2 h3 h4 h5) m)
          = take 3 (vs0 ++ [con_id k x1; con_id (k + 1) x2; con_id (k + 2) x3]))
    as Hmain.
  { unfold tres_urgentes.
    destruct (vista_encolar _ _ _ _ x1 _ V0) as [V1 E1].
    rewrite salidas_cons, (procesadas_cons_nada _ _ E1).
    set (m1 := (paso (encolar x1 n) m).1) in *.
    destruct (vista_historiales _ _ _ _ h1 _ Hh1 V1) as [V1' E1'].
    rewrite salidas_app, procesadas_app, E1', app_nil_l.
    set (m1' := estado h1 m1) in *.
    destruct (vista_encolar _ _ _ _ x2 _ V1') as [V2 E2].
    rewrite salidas_cons, (procesadas_cons_nada _ _ E2).
    set (m2 := (paso (encolar x2 n) m1').1) in *.
    destruct (vista_historiales _ _ _ _ h2 _ Hh2 V2) as [V2' E2'].
    rewrite salidas_app, procesadas_app, E2', app_nil_l.
    set (m2' := estado h2 m2) in *.
    destruct (vista_encolar _ _ _ _ x3 _ V2') as [V3 E3].
    rewrite salidas_cons, (procesadas_cons_nada _ _ E3).
    set (m3 := (paso (encolar x3 n) m2').1) in *.
    destruct (vista_historiales _ _ _ _ h3 _ Hh3 V3) as [V3' E3'].
    rewrite salidas_app, procesadas_app, E3', app_nil_l.
    set (m3' := estado h3 m3) in *.
    rewrite <- !app_assoc in V3'. simpl app in V3'.
    replace (k + 1 + 1) with (k + 2) in V3' by lia.
    destruct (vs0 ++ [con_id k x1; con_id (k + 1) x2; con_id (k + 2) x3])
      as [|v1 [|v2 [|v3 resto]]] eqn:Hvs.
    { by destruct vs0. }
    { by destruct vs0 as [|? [|? ?]]. }
    { by destruct vs0 as [|? [|? [|? ?]]]. }
    destruct (vista_procesar _ _ _ _ _ _ V3') as [V4 P1].
    rewrite salidas_cons. simpl paso. rewrite P1, procesadas_cons_procesando.
    set (m4 := (procesarTareaUrgente n m3').1) in *.
    destruct (vista_historiales _ _ _ _ h4 _ Hh4 V4) as [V4' E4'].
    rewrite salidas_app, procesadas_app, E4', app_nil_l.
    set (m4' := estado h4 m4) in *.
    destruct (vista_procesar _ _ _ _ _ _ V4') as [V5 P2].
    rewrite salidas_cons. simpl paso. rewrite P2, procesadas_cons_procesando.
    set (m5 := (procesarTareaUrgente n m4').1) in *.
    destruct (vista_historiales _ _ _ _ h5 _ Hh5 V5) as [V5' E5'].
    rewrite salidas_app, procesadas_app, E5', app_nil_l.
    set (m5' := estado h5 m5) in *.
    destruct (vista_procesar _ _ _ _ _ _ V5') as [V6 P3].
    rewrite salidas_cons. simpl paso. rewrite P3, procesadas_cons_procesando.
    reflexivity. }
  split_and!.
  - exact Hmain.
  - intros Hq. rewrite Hmain. unfold vs0. by rewrite Hq.
  - intros Hq. by apply procesarTareaUrgente_vacia with p.
Qed.

Lemma urgentes_fifo_witness :
  procesadas
    (salidas
       (tres_urgentes "Trabajo" llamada factura aviso
          [OpDeshacer] [OpDeshacer; OpDeshacer] [OpRehacer] []
          [OpRehacer; OpRehacer])
       ejemplo_sin_urgentes)
  = [ mkTareas 3 "Llamada" "cliente" 1 739100;
      mkTareas 4 "Factura" "pagar" 2 739200;
      mkTareas 5 "Aviso" "enviar" 3 739300 ].
Proof.
  apply (urgentes_fifo ejemplo_sin_urgentes "Trabajo" [0%nat]
           llamada factura aviso).
  - by exists (take 4 escenario).
  - reflexivity.
  - simpl.
    repeat (apply List.Forall_cons; [unfold es_historial; auto|]).
    apply List.Forall_nil.
  - reflexivity.
Defined.

(** * Further properties *)

(** ** Categories are never removed, moved or renamed *)

Lemma obtener_app_viejo q cs l c :
  obtener q cs = Some c → obtener q (cs ++ l) = Some c.
Proof.
  destruct q as [|i q]; [done|]. rewrite !obtener_cons.
  destruct (cs !! i) as [c0|] eqn:Hi; [|done].
  by rewrite (lookup_app_l_Some _ _ _ _ Hi).
Qed.

Lemma obtener_agregarSubcategoria_viejo {B} (g : Categoria → B) i n p q cs c :
  (∀ c s, g (con_subcategorias c s) = g c) →
  obtener q cs = Some c →
  g <$> obtener q (actualizar (Categoria_agregarSubcategoria i n) p cs)
    = Some (g c).
Proof.
  intros Hg. revert q cs. induction p as [|k p IH]; intros q cs Hq.
  { cbn [actualizar]. by rewrite Hq. }
  cbn [actualizar]. destruct (cs !! k) as [c0|] eqn:Hk; [|by rewrite Hq].
  destruct q as [|j q]; [done|]. revert Hq. rewrite !obtener_cons.
  destruct (decide (j = k)) as [->|Hne];
    [|rewrite list_lookup_insert_ne by done; by intros ->].
  rewrite list_lookup_insert_eq by (by eapply lookup_lt_Some).
  rewrite Hk. cbn [mbind option_bind].
  destruct p as [|k' p], q as [|j' q]; cbn [fmap option_fmap option_map].
  - intros [= ->]. unfold Categoria_agregarSubcategoria. by rewrite Hg.
  - unfold Categoria_agregarSubcategoria. cbn [subcategorias con_subcategorias].
    intros Hq. by rewrite (obtener_app_viejo _ _ _ _ Hq).
  - intros [= ->]. by rewrite Hg.
  - cbn [subcategorias con_subcategorias]. apply IH.
Qed.

Lemma obtener_actualizar_viejo {B} (g : Categoria → B) f p q cs c :
  (∀ c, subcategorias (f c) = subcategorias c) →
  (∀ c s, g (con_subcategorias c s) = g c) →
  (∀ c, g (f c) = g c) →
  obtener q cs = Some c →
  g <$> obtener q (actualizar f p cs) = Some (g c).
Proof.
  intros Hs Hg Hf Hq.
  rewrite (obtener_actualizar_proy g f p q cs Hs Hg) by auto. by rewrite Hq.
Qed.

Lemma categoria_persiste_paso op m q c :
  obtener q (categorias m) = Some c →
  (λ c, (categoria_id c, nombre c)) <$> obtener q (categorias (paso op m).1)
    = Some (categoria_id c, nombre c).
Proof.
  intros Hq. destruct op; simpl paso; abrir_paso;
    unfold poner_tareas, poner_urgentes;
    try (by rewrite Hq);
    try (by apply (obtener_actualizar_viejo (λ c, (categoria_id c, nombre c)))).
  - by rewrite (obtener_app_viejo _ _ _ _ Hq).
  - by apply (obtener_agregarSubcategoria_viejo (λ c, (categoria_id c, nombre c))).
Qed.

(** No operation removes, moves or renames a category: along any run, a
    route that denotes a category keeps denoting a category with the same id
    and the same name. *)
Theorem categoria_persiste (ops : list Operacion) (m : ManejadorTareas)
    (q : Ruta) (c : Categoria) :
  obtener q (categorias m) = Some c →
  ∃ c', obtener q (categorias (estado ops m)) = Some c' ∧
        categoria_id c' = categoria_id c ∧ nombre c' = nombre c.
Proof.
  revert m c. induction ops as [|op ops IH]; intros m c Hq.
  { exists c. split_and!; [exact Hq|done..]. }
  rewrite estado_cons.
  pose proof (categoria_persiste_paso op m q c Hq) as H1.
  destruct (obtener q (categorias (paso op m).1)) as [c1|] eqn:Hq1; [|done].
  injection H1 as Hid Hnom.
  destruct (IH _ _ Hq1) as (c' & Hc' & Hid' & Hnom').
  exists c'. split_and!; [done|congruence..].
Qed.

Lemma categoria_persiste_witness :
  ∃ c', obtener [0%nat; 0%nat]
          (categorias (estado (drop 2 escenario ++ [OpDeshacer; OpRehacer])
                         (estado (take 2 escenario) inicial))) = Some c' ∧
        categoria_id c' = 2 ∧ nombre c' = "Urgente".
Proof.
  apply (categoria_persiste (drop 2 escenario ++ [OpDeshacer; OpRehacer])
           (estado (take 2 escenario) inicial) [0%nat; 0%nat]
           (mkCategoria 2 "Urgente" [] [] [])).
  reflexivity.
Defined.

(** ** Creating categories *)

Lemma preorden_lista_app cs1 cs2 i :
  preorden_lista (cs1 ++ cs2) i =
  preorden_lista cs1 i ++ preorden_lista cs2 (i + length cs1).
Proof.
  revert i. induction cs1 as [|c cs1 IH]; intros i; simpl.
  - by rewrite Nat.add_0_r.
  - rewrite IH, <- app_assoc. do 3 f_equal. lia.
Qed.

Lemma primera_ninguna id nom l :
  Forall (λ rc, coincide rc.2 id nom = false) l → primera id nom l = None.
Proof.
  induction 1 as [|rc l Hrc _ IH]; [done|]. by rewrite primera_cons, Hrc.
Qed.

Lemma encontrarCategoria_nueva_raiz m m' nueva id nom :
  categorias m' = categorias m ++ [nueva] →
  encontrarCategoria m id nom = None →
  coincide nueva id nom = true →
  encontrarCategoria m' id nom = Some [length (categorias m)].
Proof.
  intros Hcs Hno Hsi. rewrite encontrarCategoria_primera in *.
  unfold preorden in *. rewrite Hcs, preorden_lista_app, primera_app, Hno.
  simpl. rewrite preorden_cat_eq. simpl.
  by rewrite primera_cons; simpl; rewrite Hsi.
Qed.

(** [agregarCategoria] on a name that is not in use appends a new root
    category with the counter's value as id and nothing in it, and steps
    the counter; the name then resolves to the new root.  Calling it again
    with the same name reports that the category exists and changes
    nothing. *)
Theorem agregarCategoria_dos_veces (n : string) (m m1 : ManejadorTareas) :
  agregarCategoria n m = (m1, Imprime (CategoriaAgregada n)) →
  categorias m1 = categorias m ++ [mkCategoria (idCategoria m) n [] [] []] ∧
  idCategoria m1 = idCategoria m + 1 ∧
  (objetos m1, idTarea m1, historial_acciones m1, historial_deshacer m1)
    = (objetos m, idTarea m, historial_acciones m, historial_deshacer m) ∧
  encontrarCategoria m1 None (Some n) = Some [length (categorias m)] ∧
  agregarCategoria n m1 = (m1, Imprime ErrorCategoriaYaExiste).
Proof.
  unfold agregarCategoria at 1.
  destruct (encontrarCategoria m None (Some n)) eqn:He; [done|].
  intros [= <-]. cbn [categorias idCategoria objetos idTarea historial_acciones
                      historial_deshacer].
  set (m1 := mkManejador _ _ _ _ _ _).
  assert (encontrarCategoria m1 None (Some n) = Some [length (categorias m)])
    as He1.
  { apply (encontrarCategoria_nueva_raiz m m1
             (mkCategoria (idCategoria m) n [] [] [])); [done|done|].
    rewrite coincide_nombre. by apply bool_decide_eq_true. }
  split_and!; try done.
  unfold agregarCategoria. by rewrite He1.
Qed.

Lemma agregarCategoria_dos_veces_witness :
  encontrarCategoria (agregarCategoria "Finanzas" ejemplo).1 None (Some "Finanzas")
    = Some [length (categorias ejemplo)] ∧
  agregarCategoria "Finanzas" (agregarCategoria "Finanzas" ejemplo).1
    = ((agregarCategoria "Finanzas" ejemplo).1, Imprime ErrorCategoriaYaExiste).
Proof.
  destruct (agregarCategoria_dos_veces "Finanzas" ejemplo
              (agregarCategoria "Finanzas" ejemplo).1 eq_refl)
    as (_ & _ & _ & H1 & H2).
  split; [exact H1|exact H2].
Defined.

(** ** Category ids *)

Lemma ids_categoria_acotados_paso op m :
  ids_categoria_acotados m → ids_categoria_acotados (paso op m).1.
Proof.
  intros [H1 Hc].
  assert (∀ f p q c,
    (∀ c, subcategorias (f c) = subcategorias c) →
    (∀ c, categoria_id (f c) = categoria_id c) →
    obtener q (actualizar f p (categorias m)) = Some c →
    1 ≤ categoria_id c < idCategoria m) as Hact.
  { intros f p q c Hs Hf Hq.
    pose proof (obtener_actualizar_proy categoria_id f p q (categorias m) Hs) as H.
    rewrite Hq in H. specialize (H (λ _ _, eq_refl) (or_intror Hf)).
    destruct (obtener q (categorias m)) as [c0|] eqn:Hq0; [|done].
    injection H as ->. by eapply Hc. }
  destruct op; simpl paso; abrir_paso; unfold poner_tareas, poner_urgentes;
    try done; (split; cbn [idCategoria]; [lia|]); intros q c Hq;
    cbn [categorias] in Hq;
    try (by eapply Hact; [| |exact Hq]); try (by eapply Hc).
  - destruct (obtener_app_nueva categoria_id q (categorias m)
                (mkCategoria (idCategoria m) nom [] [] []) eq_refl) as [Hx|Hx];
      rewrite Hq in Hx.
    + destruct (obtener q (categorias m)) as [c0|] eqn:Hq0; [|done].
      injection Hx as ->. apply Hc in Hq0. lia.
    + injection Hx as ->. simpl. lia.
  - match type of Hq with obtener _ (actualizar _ ?p _) = _ =>
      destruct (obtener_agregarSubcategoria categoria_id (idCategoria m) nom
                  p q (categorias m)) as [Hx|Hx]; [done|..] end;
      rewrite Hq in Hx.
    + destruct (obtener q (categorias m)) as [c0|] eqn:Hq0; [|done].
      injection Hx as ->. apply Hc in Hq0. lia.
    + injection Hx as ->. simpl. lia.
Qed.

Lemma ids_categoria_acotados_estado ops m :
  ids_categoria_acotados m → ids_categoria_acotados (estado ops m).
Proof.
  revert m. induction ops as [|op ops IH]; intros m Hi; [done|].
  rewrite estado_cons. by apply IH, ids_categoria_acotados_paso.
Qed.

Lemma alcanzable_ids_categoria m : alcanzable m → ids_categoria_acotados m.
Proof.
  intros [ops ->]. apply ids_categoria_acotados_estado. split; [done|].
  intros q c Hq. by destruct q.
Qed.

Lemma encontrarCategoria_por_id_None m i nom :
  ids_categoria_acotados m →
  idCategoria m ≤ i →
  encontrarCategoria m None nom = None →
  encontrarCategoria m (Some i) nom = None.
Proof.
  intros [_ Hc] Hi. rewrite !encontrarCategoria_primera.
  intros Hn%primera_None. apply primera_ninguna.
  rewrite Forall_forall in *. intros [r c] Hin.
  specialize (Hn _ Hin). simpl in *.
  apply elem_of_preorden_obtener, Hc in Hin.
  unfold coincide in *. rewrite bool_decide_eq_false_2 in Hn by done.
  rewrite bool_decide_eq_false_2; [done|]. intros [= ?]. lia.
Qed.

(** In any state of a run, a category just created by [agregarCategoria]
    is what [encontrarCategoria] returns for its id, for its name, and for
    both together. *)
Theorem categoria_nueva_por_id_y_nombre (n : string) (m m1 : ManejadorTareas) :
  alcanzable m →
  agregarCategoria n m = (m1, Imprime (CategoriaAgregada n)) →
  obtener [length (categorias m)] (categorias m1)
    = Some (mkCategoria (idCategoria m) n [] [] []) ∧
  encontrarCategoria m1 (Some (idCategoria m)) None = Some [length (categorias m)] ∧
  encontrarCategoria m1 None (Some n) = Some [length (categorias m)] ∧
  encontrarCategoria m1 (Some (idCategoria m)) (Some n)
    = Some [length (categorias m)].
Proof.
  intros Ha%alcanzable_ids_categoria. unfold agregarCategoria.
  destruct (encontrarCategoria m None (Some n)) eqn:He; [done|].
  intros [= <-]. set (m1 := mkManejador _ _ _ _ _ _).
  assert (encontrarCategoria m None None = None) as He0.
  { rewrite encontrarCategoria_primera. apply primera_ninguna.
    apply Forall_forall. by intros [r c] _. }
  split_and!.
  - simpl. by rewrite lookup_app_r, Nat.sub_diag by lia.
  - apply (encontrarCategoria_nueva_raiz m m1
             (mkCategoria (idCategoria m) n [] [] [])); [done| |].
    + by apply encontrarCategoria_por_id_None.
    + apply coincide_Coincide. by left.
  - apply (encontrarCategoria_nueva_raiz m m1
             (mkCategoria (idCategoria m) n [] [] [])); [done|done|].
    apply coincide_Coincide. by right.
  - apply (encontrarCategoria_nueva_raiz m m1
             (mkCategoria (idCategoria m) n [] [] [])); [done| |].
    + by apply encontrarCategoria_por_id_None.
    + apply coincide_Coincide. by left.
Qed.

Lemma categoria_nueva_por_id_y_nombre_witness :
  encontrarCategoria (agregarCategoria "Finanzas" ejemplo).1 (Some 3) None
    = Some [1%nat] ∧
  encontrarCategoria (agregarCategoria "Finanzas" ejemplo).1 None (Some "Finanzas")
    = Some [1%nat].
Proof.
  destruct (categoria_nueva_por_id_y_nombre "Finanzas" ejemplo
              (agregarCategoria "Finanzas" ejemplo).1)
    as (_ & H1 & H2 & _); [by exists escenario|reflexivity|].
  split; [exact H1|exact H2].
Defined.

Lemma nodos_insert cs k c0 x :
  cs !! k = Some c0 →
  nodos cs = nodos (take k cs) ++ c0 :: nodos (subcategorias c0)
               ++ nodos (drop (S k) cs) ∧
  nodos (<[k:=x]> cs) = nodos (take k cs) ++ x :: nodos (subcategorias x)
                          ++ nodos (drop (S k) cs).
Proof.
  intros Hk. split.
  - rewrite <- (take_drop_middle cs k c0 Hk) at 1.
    by rewrite nodos_app, nodos_cons.
  - rewrite insert_take_drop by (by eapply lookup_lt_Some).
    by rewrite nodos_app, nodos_cons.
Qed.

(** A mutation of one category's own fields shows in no projection of the
    forest that it leaves alone. *)
Lemma nodos_actualizar_proy {B} (g : Categoria → B) f p cs :
  (∀ c, subcategorias (f c) = subcategorias c) →
  (∀ c s, g (con_subcategorias c s) = g c) →
  (∀ c, g (f c) = g c) →
  g <$> nodos (actualizar f p cs) = g <$> nodos cs.
Proof.
  intros Hs Hg Hf. revert cs. induction p as [|k p IH]; intros cs; [done|].
  cbn [actualizar]. destruct (cs !! k) as [c0|] eqn:Hk; [|done].
  match goal with |- context [<[k:=?x]> cs] =>
    destruct (nodos_insert cs k c0 x Hk) as [-> ->];
    assert (g x = g c0 ∧
            g <$> nodos (subcategorias x) = g <$> nodos (subcategorias c0))
      as [Hx Hsx]
  end.
  { destruct p as [|k' p].
    - by rewrite Hf, Hs.
    - rewrite Hg. cbn [subcategorias con_subcategorias]. by rewrite IH. }
  by rewrite !fmap_app, !fmap_cons, !fmap_app, Hx, Hsx.
Qed.

Lemma ids_categorias_agregarSubcategoria i n p cs c :
  obtener p cs = Some c →
  ids_categorias (actualizar (Categoria_agregarSubcategoria i n) p cs)
    ≡ₚ i :: ids_categorias cs.
Proof.
  unfold ids_categorias. revert cs.
  induction p as [|k p IH]; intros cs; [done|].
  cbn [actualizar obtener]. destruct (cs !! k) as [c0|] eqn:Hk; [|done].
  intros Hp.
  match goal with |- context [<[k:=?x]> cs] =>
    destruct (nodos_insert cs k c0 x Hk) as [-> ->] end.
  rewrite !fmap_app, !fmap_cons, !fmap_app.
  destruct p as [|k' p].
  - unfold Categoria_agregarSubcategoria. cbn [subcategorias con_subcategorias
                                                 categoria_id].
    rewrite nodos_app, fmap_app, nodos_cons. simpl.
    rewrite (Permutation_cons_append _ i). solve_Permutation.
  - cbn [subcategorias con_subcategorias categoria_id].
    rewrite (IH _ Hp). solve_Permutation.
Qed.

Lemma ids_categorias_paso op m :
  ids_categorias (categorias (paso op m).1)
    ≡ₚ ids_categorias (categorias m)
       ++ seqZ (idCategoria m) (idCategoria (paso op m).1 - idCategoria m) ∧
  idCategoria m ≤ idCategoria (paso op m).1.
Proof.
  assert (∀ a, seqZ a (a - a) = []) as H0 by (intros; by rewrite seqZ_nil by lia).
  assert (∀ a, seqZ a (a + 1 - a) = [a]) as H1.
  { intros a. replace (a + 1 - a) with 1 by lia.
    rewrite seqZ_cons by lia. by rewrite seqZ_nil by lia. }
  destruct op; simpl paso; abrir_paso; unfold poner_tareas, poner_urgentes;
    rewrite ?H0, ?H1, ?app_nil_r; (split; [|lia]); try done;
    try (unfold ids_categorias; by rewrite nodos_actualizar_proy).
  - unfold ids_categorias. by rewrite nodos_app, fmap_app, nodos_cons.
  - match goal with He : encontrarCategoria _ _ _ = Some _ |- _ =>
      apply encontrarCategoria_Some in He as (c & Hc & _) end.
    rewrite (ids_categorias_agregarSubcategoria _ _ _ _ _ Hc).
    by rewrite (Permutation_cons_append _ (idCategoria m)).
Qed.

Lemma ids_categorias_estado ops m :
  ids_categorias (categorias (estado ops m))
    ≡ₚ ids_categorias (categorias m)
       ++ seqZ (idCategoria m) (idCategoria (estado ops m) - idCategoria m) ∧
  idCategoria m ≤ idCategoria (estado ops m).
Proof.
  revert m. induction ops as [|op ops IH]; intros m.
  - unfold estado; simpl. rewrite seqZ_nil by lia. by rewrite app_nil_r.
  - rewrite estado_cons.
    destruct (ids_categorias_paso op m) as [Hp Hle].
    destruct (IH (paso op m).1) as [Hps Hles]. split; [|lia].
    rewrite Hps, Hp, <- app_assoc. f_equiv.
    replace (idCategoria (estado ops (paso op m).1) - idCategoria m)
      with ((idCategoria (paso op m).1 - idCategoria m)
            + (idCategoria (estado ops (paso op m).1) - idCategoria (paso op m).1))
      by lia.
    rewrite seqZ_app by lia.
    by replace (idCategoria m + (idCategoria (paso op m).1 - idCategoria m))
      with (idCategoria (paso op m).1) by lia.
Qed.

(** In every run the ids of the categories of the whole forest, roots and
    subcategories alike, are the numbers 1, ..., [idCategoria] - 1, each
    borne by exactly one category; the counter never goes down. *)
Theorem ids_de_categorias (ops : list Operacion) :
  ids_categorias (categorias (estado ops inicial))
    ≡ₚ seqZ 1 (idCategoria (estado ops inicial) - 1) ∧
  NoDup (ids_categorias (categorias (estado ops inicial))) ∧
  (∀ ops',
     idCategoria (estado ops inicial) ≤ idCategoria (estado (ops ++ ops') inicial)).
Proof.
  destruct (ids_categorias_estado ops inicial) as [Hp Hle]. simpl in Hp.
  split_and!.
  - exact Hp.
  - rewrite Hp. apply NoDup_seqZ.
  - intros ops'. rewrite estado_app. apply ids_categorias_estado.
Qed.

(** ** Creating subcategories *)

Lemma obtener_app_ruta p k cs c :
  obtener p cs = Some c → obtener (p ++ [k]) cs = subcategorias c !! k.
Proof.
  revert cs. induction p as [|i p IH]; intros cs; [done|].
  simpl app. rewrite !obtener_cons.
  destruct (cs !! i) as [c0|]; [|done]. cbn [mbind option_bind].
  destruct p as [|j p].
  - intros [= ->]. simpl. by destruct (subcategorias c !! k).
  - intros Hp. simpl app. by apply IH.
Qed.

Lemma encontrarCategoria_nombre_Some m n p :
  encontrarCategoria m None (Some n) = Some p →
  ∃ c, obtener p (categorias m) = Some c ∧ nombre c = n.
Proof.
  intros (c & Hc & Hco)%encontrarCategoria_Some. exists c. split; [done|].
  rewrite coincide_nombre in Hco. by apply bool_decide_eq_true in Hco.
Qed.

(** A successful [agregarSubcategoria] appends a new, empty category with
    the counter's value as id as the last subcategory of the category the
    parent name resolves to, and steps the counter.  Every category that
    existed keeps its route, id, name, tasks and urgent queue; task objects,
    histories and the task counter are untouched.  The new name is not
    compared with anything. *)
Theorem agregarSubcategoria_efecto (n np : string) (m m1 : ManejadorTareas) :
  agregarSubcategoria n np m = (m1, Imprime (SubcategoriaAgregada n np)) →
  ∃ p c,
    encontrarCategoria m None (Some np) = Some p ∧
    obtener p (categorias m) = Some c ∧ nombre c = np ∧
    obtener p (categorias m1)
      = Some (con_subcategorias c
                (subcategorias c ++ [mkCategoria (idCategoria m) n [] [] []])) ∧
    obtener (p ++ [length (subcategorias c)]) (categorias m1)
      = Some (mkCategoria (idCategoria m) n [] [] []) ∧
    (∀ q c', obtener q (categorias m) = Some c' →
       campos <$> obtener q (categorias m1) = Some (campos c')) ∧
    idCategoria m1 = idCategoria m + 1 ∧
    (objetos m1, idTarea m1, historial_acciones m1, historial_deshacer m1)
      = (objetos m, idTarea m, historial_acciones m, historial_deshacer m).
Proof.
  unfold agregarSubcategoria.
  destruct (encontrarCategoria m None (Some np)) as [p|] eqn:Hp; [|done].
  intros [= <-]. destruct (encontrarCategoria_nombre_Some _ _ _ Hp) as (c & Hc & Hn).
  exists p, c. cbn [categorias idCategoria objetos idTarea historial_acciones
                    historial_deshacer].
  assert (obtener p (actualizar (Categoria_agregarSubcategoria (idCategoria m) n)
                       p (categorias m))
          = Some (Categoria_agregarSubcategoria (idCategoria m) n c)) as Hp1
    by (by apply obtener_actualizar).
  split_and!; try done.
  - rewrite (obtener_app_ruta _ _ _ _ Hp1). simpl.
    by rewrite lookup_app_r, Nat.sub_diag by lia.
  - intros q c' Hq. by apply obtener_agregarSubcategoria_viejo.
Qed.

Lemma agregarSubcategoria_efecto_witness :
  ∃ p c,
    encontrarCategoria ejemplo None (Some "Trabajo") = Some p ∧
    obtener p (categorias ejemplo) = Some c ∧
    obtener (p ++ [length (subcategorias c)])
      (categorias (agregarSubcategoria "Trabajo" "Trabajo" ejemplo).1)
      = Some (mkCategoria 3 "Trabajo" [] [] []).
Proof.
  destruct (agregarSubcategoria_efecto "Trabajo" "Trabajo" ejemplo
              (agregarSubcategoria "Trabajo" "Trabajo" ejemplo).1 eq_refl)
    as (p & c & Hp & Hc & _ & _ & Hn & _).
  exists p, c. split; [exact Hp|]. split; [exact Hc|exact Hn].
Defined.

(** ** Names and ids that are not there *)

(** Every operation that names a category reports an error and leaves the
    manager exactly as it was when no category of the forest bears the
    name. *)
Theorem categoria_inexistente (n : string) (m : ManejadorTareas) :
  n ∉ nombres (categorias m) →
  (∀ x, agregarSubcategoria x n m = (m, Imprime ErrorCategoriaNoExiste)) ∧
  (∀ t d pr f, agregarTarea t d pr f n m = (m, Imprime ErrorCategoriaNoExiste)) ∧
  (∀ i, eliminarTarea i n m = (m, Imprime ErrorCategoriaNoExiste)) ∧
  (∀ i t d pr f,
     modificarTarea i t d pr f n m = (m, Imprime ErrorCategoriaNoExiste)) ∧
  (∀ t d pr f,
     agregarTareaUrgente t d pr f n m = (m, Imprime ErrorCategoriaNoExiste)) ∧
  procesarTareaUrgente n m = (m, Imprime ErrorCategoriaNoExiste) ∧
  mostrarTareasUrgentes n m = (m, Imprime (ErrorLaCategoriaNoExiste n)) ∧
  mostrarTareasOrdenadas n m = ListadoCategoriaNoExiste.
Proof.
  intros He%encontrarCategoria_nombre_None.
  unfold agregarSubcategoria, agregarTarea, eliminarTarea, modificarTarea,
    agregarTareaUrgente, procesarTareaUrgente, mostrarTareasUrgentes,
    mostrarTareasOrdenadas.
  by rewrite He.
Qed.

Lemma categoria_inexistente_witness :
  eliminarTarea 1 "Casa" ejemplo = (ejemplo, Imprime ErrorCategoriaNoExiste) ∧
  procesarTareaUrgente "Casa" ejemplo = (ejemplo, Imprime ErrorCategoriaNoExiste).
Proof.
  assert ("Casa" ∉ nombres (categorias ejemplo)) as H.
  { vm_compute. intros H. repeat (apply elem_of_cons in H as [H|H]; [done|]).
    by apply elem_of_nil in H. }
  destruct (categoria_inexistente "Casa" ejemplo H) as (_ & _ & H1 & _ & _ & H2 & _).
  split; [exact (H1 1)|exact H2].
Defined.

Lemma buscarTarea_None objs l idT :
  buscarTarea objs l idT = None ↔
  ∀ r, r ∈ l → tarea_id <$> objs !! r ≠ Some idT.
Proof.
  induction l as [|x l IH]; simpl.
  - split; [intros _ r Hr; by apply elem_of_nil in Hr|done].
  - case_bool_decide as Hx.
    + split; [done|]. intros H. exfalso. apply (H x); [by left|done].
    + rewrite IH. split.
      * intros H r [->|Hr]%elem_of_cons; auto.
      * intros H r Hr. apply H. by right.
Qed.

(** [eliminarTarea] and [modificarTarea] look for the task id in the task
    list of the resolved category only (not in its subcategories, not in
    its urgent queue): they report that the task does not exist exactly
    when no task of that list has the id, and then change nothing. *)
Theorem tarea_inexistente (i : Z) (n : string) (m : ManejadorTareas) (p : Ruta) :
  encontrarCategoria m None (Some n) = Some p →
  ((∀ r, r ∈ tareas_de p (categorias m) → tarea_id <$> objetos m !! r ≠ Some i)
     ↔ eliminarTarea i n m = (m, Imprime ErrorTareaNoExiste)) ∧
  ((∀ r, r ∈ tareas_de p (categorias m) → tarea_id <$> objetos m !! r ≠ Some i)
     ↔ ∀ t d pr f, modificarTarea i t d pr f n m = (m, Imprime ErrorTareaNoExiste)).
Proof.
  intros Hp. rewrite <- buscarTarea_None. unfold eliminarTarea, modificarTarea.
  rewrite Hp. destruct (buscarTarea _ _ _) as [r|] eqn:Hb.
  - split; (split; [done|]).
    + by destruct (quitar _ _).
    + intros H. specialize (H "" "" 0 0). discriminate H.
  - by split.
Qed.

Lemma tarea_inexistente_witness :
  eliminarTarea 3 "Trabajo" ejemplo = (ejemplo, Imprime ErrorTareaNoExiste).
Proof.
  apply (tarea_inexistente 3 "Trabajo" ejemplo [0%nat] eq_refl).
  intros r Hr. vm_compute in Hr.
  repeat (apply elem_of_cons in Hr as [->|Hr]; [by vm_compute|]).
  by apply elem_of_nil in Hr.
Defined.

(** ** What undo and redo leave alone *)

Lemma tarea_id_copiar_campos o dst objs r :
  tarea_id <$> copiar_campos o dst objs !! r = tarea_id <$> objs !! r.
Proof.
  unfold copiar_campos. destruct (decide (r = dst)) as [->|Hne].
  - rewrite list_lookup_alter_eq. by destruct (objs !! dst).
  - by rewrite list_lookup_alter_ne.
Qed.

(** Whatever is on the histories, and whether the call succeeds, finds
    nothing to do or raises: [deshacer] and [rehacer] create and destroy no
    task object and change no task's id, leave both counters alone, and
    leave every category with its route, id, name and urgent queue. *)
Theorem historial_no_toca (op : Operacion) (m : ManejadorTareas) :
  es_historial op →
  idCategoria (paso op m).1 = idCategoria m ∧
  idTarea (paso op m).1 = idTarea m ∧
  length (objetos (paso op m).1) = length (objetos m) ∧
  (∀ r, tarea_id <$> objetos (paso op m).1 !! r = tarea_id <$> objetos m !! r) ∧
  (∀ q, (λ c, (categoria_id c, nombre c, tareasUrgentes c))
          <$> obtener q (categorias (paso op m).1)
        = (λ c, (categoria_id c, nombre c, tareasUrgentes c))
          <$> obtener q (categorias m)).
Proof.
  intros [-> | ->]; simpl paso; abrir_paso; unfold poner_tareas;
    split_and!; try done;
    try (unfold copiar_campos; by rewrite length_alter);
    try (intros r; apply tarea_id_copiar_campos);
    intros q;
    apply (obtener_actualizar_proy
             (λ c, (categoria_id c, nombre c, tareasUrgentes c))); auto.
Qed.

Lemma historial_no_toca_witness :
  idTarea (deshacer ejemplo).1 = idTarea ejemplo ∧
  length (objetos (deshacer ejemplo).1) = length (objetos ejemplo).
Proof.
  destruct (historial_no_toca OpDeshacer ejemplo (or_introl eq_refl))
    as (_ & H1 & H2 & _).
  split; [exact H1|exact H2].
Defined.

(** ** Modifying a task *)

Lemma buscarTarea_primera objs l idT r :
  buscarTarea objs l idT = Some r →
  ∃ l1 l2, l = l1 ++ r :: l2 ∧
           ∀ x, x ∈ l1 → tarea_id <$> objs !! x ≠ Some idT.
Proof.
  induction l as [|x l IH]; simpl; [done|].
  case_bool_decide as Hx.
  - intros [= <-]. exists [], l. split; [done|].
    intros y Hy. by apply elem_of_nil in Hy.
  - intros (l1 & l2 & -> & H1)%IH. exists (x :: l1), l2. split; [done|].
    intros y [->|Hy]%elem_of_cons; auto.
Qed.

(** A successful [modificarTarea] acts on the first task of the category's
    list that has the id.  It gives that object the four new field values
    and keeps its id and its place in the list; it stores the old values in
    a new object, and pushes one record that refers to both.  No other
    task object, no category and no counter changes. *)
Theorem modificarTarea_efecto (i : Z) (t d : string) (pr : Z) (f : datetime)
    (n : string) (m m1 : ManejadorTareas) :
  modificarTarea i t d pr f n m = (m1, Imprime (TareaModificada t)) →
  ∃ p r v l1 l2,
    encontrarCategoria m None (Some n) = Some p ∧
    tareas_de p (categorias m) = l1 ++ r :: l2 ∧
    (∀ x, x ∈ l1 → tarea_id <$> objetos m !! x ≠ Some i) ∧
    objetos m !! r = Some v ∧ tarea_id v = i ∧
    objetos m1 !! r = Some (mkTareas i t d pr f) ∧
    objetos m1 !! length (objetos m) = Some v ∧
    length (objetos m1) = S (length (objetos m)) ∧
    (∀ r', r' ≠ r → (r' < length (objetos m))%nat →
       objetos m1 !! r' = objetos m !! r') ∧
    categorias m1 = categorias m ∧
    historial_acciones m1
      = modificar (length (objetos m)) r p :: historial_acciones m ∧
    (historial_deshacer m1, idCategoria m1, idTarea m1)
      = (historial_deshacer m, idCategoria m, idTarea m).
Proof.
  unfold modificarTarea.
  destruct (encontrarCategoria m None (Some n)) as [p|] eqn:Hp; [|done].
  destruct (buscarTarea _ _ i) as [r|] eqn:Hr; [|done].
  intros [= <-].
  destruct (buscarTarea_primera _ _ _ _ Hr) as (l1 & l2 & Hl & Hl1).
  apply buscarTarea_Some in Hr as [_ Hid].
  destruct (objetos m !! r) as [v|] eqn:Hv; [|done]. injection Hid as Hid.
  assert (r < length (objetos m))%nat as Hlt by (by eapply lookup_lt_Some).
  exists p, r, v, l1, l2. rewrite (leer_lookup _ _ _ Hv).
  destruct v as [vi vt vd vp vf]; simpl in Hid; subst vi.
  cbn [objetos categorias idCategoria idTarea historial_acciones
       historial_deshacer tarea_id titulo descripcion prioridad
       fecha_vencimiento].
  split_and!; try done.
  - by rewrite list_lookup_alter_eq, lookup_app_l, Hv.
  - rewrite list_lookup_alter_ne by lia.
    by rewrite lookup_app_r, Nat.sub_diag by lia.
  - rewrite length_alter, length_app. simpl. lia.
  - intros r' Hne Hr'. rewrite list_lookup_alter_ne by done.
    by rewrite lookup_app_l.
Qed.

Lemma modificarTarea_efecto_witness :
  ∃ p r v l1 l2,
    encontrarCategoria ejemplo None (Some "Trabajo") = Some p ∧
    tareas_de p (categorias ejemplo) = l1 ++ r :: l2 ∧
    objetos ejemplo !! r = Some v ∧
    objetos (modificarTarea 2 "Carta" "enviar" 2 739500 "Trabajo" ejemplo).1 !! r
      = Some (mkTareas 2 "Carta" "enviar" 2 739500) ∧
    objetos (modificarTarea 2 "Carta" "enviar" 2 739500 "Trabajo" ejemplo).1
      !! length (objetos ejemplo) = Some v.
Proof.
  destruct (modificarTarea_efecto 2 "Carta" "enviar" 2 739500 "Trabajo" ejemplo
              (modificarTarea 2 "Carta" "enviar" 2 739500 "Trabajo" ejemplo).1
              eq_refl)
    as (p & r & v & l1 & l2 & Hp & Hl & _ & Hv & _ & H1 & H2 & _).
  exists p, r, v, l1, l2. split_and!; [exact Hp|exact Hl|exact Hv|exact H1|exact H2].
Defined.

(** ** Undo followed by redo *)

Lemma actualizar_ext f g p cs :
  (∀ c, f c = g c) → actualizar f p cs = actualizar g p cs.
Proof.
  intros Hfg. revert cs. induction p as [|i p IH]; intros cs; [done|].
  cbn [actualizar]. destruct (cs !! i) as [c|]; [|done]. f_equal.
  destruct p as [|j p]; [apply Hfg|]. by rewrite IH.
Qed.

Lemma poner_tareas_idem p l l' cs :
  poner_tareas p l (poner_tareas p l' cs) = poner_tareas p l cs.
Proof.
  unfold poner_tareas. rewrite actualizar_actualizar. by apply actualizar_ext.
Qed.

(** In any state of a run: after a successful [agregarTarea], [deshacer]
    followed by [rehacer] both succeed and bring back exactly the manager
    that [agregarTarea] left: the task at the end of the list, the record on
    [historial_acciones], [historial_deshacer] as it was. *)
Theorem deshacer_rehacer_tras_agregar (t d : string) (pr : Z) (f : datetime)
    (n : string) (m m1 : ManejadorTareas) :
  alcanzable m →
  agregarTarea t d pr f n m = (m1, Imprime (TareaAgregada t n)) →
  (deshacer m1).2 = Imprime AccionDeshecha ∧
  rehacer (deshacer m1).1 = (m1, Imprime AccionRehecha).
Proof.
  intros Hi%alcanzable_invariante. unfold agregarTarea.
  destruct (encontrarCategoria m None (Some n)) as [p|] eqn:Hp; [|done].
  intros [= <-].
  apply encontrarCategoria_Some in Hp as (c & Hc & _).
  assert (length (objetos m) ∉ tareas_de p (categorias m)) as Hnueva.
  { intros Hin. assert (lado_tareas m (length (objetos m))) as Hl
      by (left; by exists p).
    apply (inv_tareas m Hi) in Hl. lia. }
  unfold deshacer. cbn [historial_acciones categorias].
  rewrite (tareas_de_poner_tareas _ _ _ _ Hc), (quitar_nueva _ _ Hnueva).
  split; [done|]. unfold rehacer.
  cbn [fst historial_deshacer categorias objetos idCategoria idTarea
       historial_acciones].
  rewrite (tareas_de_poner_tareas p _ _
             (con_tareas (tareas_de p (categorias m) ++ [length (objetos m)]) c))
    by (by apply obtener_actualizar).
  by rewrite !poner_tareas_idem.
Qed.

Lemma deshacer_rehacer_tras_agregar_witness :
  rehacer (deshacer (agregarTarea "Acta" "reunion" 2 739300 "Trabajo" ejemplo).1).1
    = ((agregarTarea "Acta" "reunion" 2 739300 "Trabajo" ejemplo).1,
       Imprime AccionRehecha).
Proof.
  apply (deshacer_rehacer_tras_agregar "Acta" "reunion" 2 739300 "Trabajo" ejemplo).
  - by exists escenario.
  - reflexivity.
Defined.

(** After a successful [eliminarTarea] on a list that holds the task object
    once, [deshacer] followed by [rehacer] both succeed and bring back
    exactly the manager that [eliminarTarea] left. *)
Theorem deshacer_rehacer_tras_eliminar (i : Z) (n : string) (p : Ruta)
    (m m1 : ManejadorTareas) :
  encontrarCategoria m None (Some n) = Some p →
  NoDup (tareas_de p (categorias m)) →
  eliminarTarea i n m = (m1, Imprime (TareaEliminada i)) →
  (deshacer m1).2 = Imprime AccionDeshecha ∧
  rehacer (deshacer m1).1 = (m1, Imprime AccionRehecha).
Proof.
  intros Hp Hnd. unfold eliminarTarea. rewrite Hp.
  destruct (buscarTarea _ _ i) as [t|] eqn:Ht; [|done].
  destruct (quitar t _) as [l|] eqn:Hq; [|done].
  intros [= <-].
  apply encontrarCategoria_Some in Hp as (c & Hc & _).
  apply quitar_Some in Hq as (l1 & l2 & Hl & Hnot & ->).
  assert (t ∉ l1 ++ l2) as Hfuera.
  { rewrite Hl in Hnd. apply NoDup_app in Hnd as (_ & H1 & H2).
    apply NoDup_cons in H2 as [H2 _]. rewrite elem_of_app. tauto. }
  unfold deshacer. cbn [historial_acciones categorias]. split; [done|].
  unfold rehacer.
  cbn [fst historial_deshacer categorias objetos idCategoria idTarea
       historial_acciones].
  rewrite (tareas_de_poner_tareas _ _ _ _ Hc).
  rewrite (tareas_de_poner_tareas p _ _ (con_tareas (l1 ++ l2) c))
    by (by apply obtener_actualizar).
  rewrite (quitar_nueva _ _ Hfuera). by rewrite !poner_tareas_idem.
Qed.

Lemma deshacer_rehacer_tras_eliminar_witness :
  rehacer (deshacer (eliminarTarea 1 "Trabajo" ejemplo).1).1
    = ((eliminarTarea 1 "Trabajo" ejemplo).1, Imprime AccionRehecha).
Proof.
  apply (deshacer_rehacer_tras_eliminar 1 "Trabajo" [0%nat] ejemplo).
  - reflexivity.
  - vm_compute. repeat constructor; rewrite ?elem_of_cons, ?elem_of_nil;
      intros H; repeat destruct H as [H|H]; done.
  - reflexivity.
Defined.

(** ** Adding a task and removing it by its id *)

Lemma alcanzable_ids_acotados m : alcanzable m → ids_acotados m.
Proof.
  intros [ops ->]. apply ids_acotados_estado. split; [done|constructor].
Qed.

(** In any state of a run: the task that a successful [agregarTarea] has
    just created is the one [eliminarTarea] finds under the id the counter
    had, and removing it gives the forest back as it was before the task
    was added. *)
Theorem agregar_eliminar (t d : string) (pr : Z) (f : datetime) (n : string)
    (m m1 : ManejadorTareas) :
  alcanzable m →
  agregarTarea t d pr f n m = (m1, Imprime (TareaAgregada t n)) →
  ∃ p,
    encontrarCategoria m None (Some n) = Some p ∧
    buscarTarea (objetos m1) (tareas_de p (categorias m1)) (idTarea m)
      = Some (length (objetos m)) ∧
    (eliminarTarea (idTarea m) n m1).2 = Imprime (TareaEliminada (idTarea m)) ∧
    categorias (eliminarTarea (idTarea m) n m1).1 = categorias m ∧
    historial_acciones (eliminarTarea (idTarea m) n m1).1
      = eliminar (length (objetos m)) p :: historial_acciones m1.
Proof.
  intros Ha. pose proof (alcanzable_invariante m Ha) as Hi.
  pose proof (alcanzable_ids_acotados m Ha) as [_ Hids].
  unfold agregarTarea.
  destruct (encontrarCategoria m None (Some n)) as [p|] eqn:Hp; [|done].
  intros [= <-]. set (m1 := mkManejador _ _ _ _ _ _). exists p.
  assert (encontrarCategoria m1 None (Some n) = Some p) as Hp1.
  { rewrite <- Hp.
    by apply (encontrarCategoria_poner_tareas m m1 p
                (tareas_de p (categorias m) ++ [length (objetos m)])). }
  apply encontrarCategoria_Some in Hp as (c & Hc & _).
  assert (length (objetos m) ∉ tareas_de p (categorias m)) as Hnueva.
  { intros Hin. assert (lado_tareas m (length (objetos m))) as Hl
      by (left; by exists p).
    apply (inv_tareas m Hi) in Hl. lia. }
  assert (tareas_de p (categorias m1)
          = tareas_de p (categorias m) ++ [length (objetos m)]) as Hl1
    by apply (tareas_de_poner_tareas _ _ _ _ Hc).
  assert (buscarTarea (objetos m1) (tareas_de p (categorias m1)) (idTarea m)
          = Some (length (objetos m))) as Hb.
  { rewrite Hl1. unfold m1. cbn [objetos].
    generalize (tareas_de p (categorias m)) as l.
    induction l as [|x l IH]; simpl.
    - rewrite lookup_app_r, Nat.sub_diag by lia. simpl.
      by rewrite bool_decide_eq_true_2.
    - case_bool_decide as Hx; [|done]. f_equal.
      destruct (decide (x < length (objetos m))%nat) as [Hlt|Hge].
      + rewrite lookup_app_l in Hx by done.
        destruct (objetos m !! x) as [v|] eqn:Hv; [|done].
        injection Hx as Hx.
        apply (proj1 (Forall_lookup _ _) Hids x v) in Hv. lia.
      + destruct (decide (x = length (objetos m))) as [->|Hne]; [done|].
        rewrite lookup_ge_None_2 in Hx; [done|].
        rewrite length_app. simpl. lia. }
  split; [done|]. split; [exact Hb|].
  unfold eliminarTarea. rewrite Hp1, Hb, Hl1, (quitar_nueva _ _ Hnueva).
  cbn [fst snd categorias historial_acciones]. split_and!; [done| |done].
  unfold m1. cbn [categorias]. rewrite poner_tareas_idem.
  apply actualizar_fijo with c; [done|]. unfold tareas_de. rewrite Hc.
  by destruct c.
Qed.

Lemma agregar_eliminar_witness :
  categorias
    (eliminarTarea (idTarea ejemplo) "Trabajo"
       (agregarTarea "Acta" "reunion" 2 739300 "Trabajo" ejemplo).1).1
  = categorias ejemplo.
Proof.
  destruct (agregar_eliminar "Acta" "reunion" 2 739300 "Trabajo" ejemplo
              (agregarTarea "Acta" "reunion" 2 739300 "Trabajo" ejemplo).1)
    as (p & _ & _ & _ & H & _); [by exists escenario|reflexivity|exact H].
Defined.

(** ** Looking at the urgent queue and emptying it *)

Lemma procesar_replicate n p k m :
  encontrarCategoria m None (Some n) = Some p →
  procesadas (salidas (replicate k (OpProcesarTareaUrgente n)) m)
    = take k (leer (objetos m) <$> urgentes_de p (categorias m)) ∧
  urgentes_de p (categorias (estado (replicate k (OpProcesarTareaUrgente n)) m))
    = drop k (urgentes_de p (categorias m)).
Proof.
  revert m. induction k as [|k IH]; intros m Hp.
  { split; [done|]. by rewrite drop_0. }
  cbn [replicate]. rewrite salidas_cons, estado_cons. simpl paso.
  unfold procesarTareaUrgente. rewrite Hp.
  destruct (urgentes_de p (categorias m)) as [|t resto] eqn:Hq;
    cbn [fst snd].
  - rewrite procesadas_cons_nada by done.
    destruct (IH m Hp) as [-> ->]. rewrite Hq. simpl.
    by rewrite !take_nil, !drop_nil.
  - destruct (encontrarCategoria_Some _ _ _ _ Hp) as (c & Hc & _).
    set (m' := mkManejador _ _ _ _ _ _).
    assert (encontrarCategoria m' None (Some n) = Some p) as Hp'.
    { rewrite <- Hp. by apply (encontrarCategoria_poner_urgentes m m' p resto). }
    rewrite procesadas_cons_procesando.
    destruct (IH m' Hp') as [-> ->]. unfold m'. cbn [categorias objetos].
    by rewrite (urgentes_de_poner_urgentes _ _ _ _ Hc).
Qed.

Lemma encontrarCategoria_tras_procesar n p k m :
  encontrarCategoria m None (Some n) = Some p →
  encontrarCategoria (estado (replicate k (OpProcesarTareaUrgente n)) m)
    None (Some n) = Some p.
Proof.
  revert m. induction k as [|k IH]; intros m Hp; [done|].
  cbn [replicate]. rewrite estado_cons. apply IH. simpl paso.
  unfold procesarTareaUrgente. rewrite Hp.
  destruct (urgentes_de p (categorias m)) as [|t resto]; [done|].
  rewrite <- Hp.
  by apply (encontrarCategoria_poner_urgentes m _ p resto).
Qed.

(** [mostrarTareasUrgentes] shows the urgent tasks of the category from the
    head of the queue to its tail and changes nothing.  What it shows is
    what [procesarTareaUrgente] then hands out: [k] calls print the first
    [k] tasks shown, in that order; after as many calls as there are tasks
    the queue is empty and the next call reports that. *)
Theorem urgentes_mostrar_y_vaciar (n : string) (p : Ruta) (k : nat)
    (m : ManejadorTareas) :
  encontrarCategoria m None (Some n) = Some p →
  mostrarTareasUrgentes n m
    = (m, Imprime
            match urgentes_de p (categorias m) with
            | [] => NoHayTareasUrgentes
            | _ :: _ =>
                ListaTareasUrgentes n
                  (leer (objetos m) <$> urgentes_de p (categorias m))
            end) ∧
  procesadas (salidas (replicate k (OpProcesarTareaUrgente n)) m)
    = take k (leer (objetos m) <$> urgentes_de p (categorias m)) ∧
  (procesarTareaUrgente n
     (estado (replicate (length (urgentes_de p (categorias m)))
                (OpProcesarTareaUrgente n)) m)).2
    = Imprime NoHayTareasUrgentes.
Proof.
  intros Hp. split_and!.
  - unfold mostrarTareasUrgentes. rewrite Hp.
    by destruct (urgentes_de p (categorias m)).
  - by apply procesar_replicate.
  - set (k0 := length (urgentes_de p (categorias m))).
    destruct (procesar_replicate n p k0 m Hp) as [_ Hd].
    pose proof (encontrarCategoria_tras_procesar n p k0 m Hp) as Hp'.
    unfold procesarTareaUrgente. rewrite Hp', Hd. unfold k0.
    by rewrite drop_all.
Qed.

Lemma urgentes_mostrar_y_vaciar_witness :
  procesadas (salidas (replicate 2 (OpProcesarTareaUrgente "Trabajo")) ejemplo)
    = take 2 (leer (objetos ejemplo) <$> urgentes_de [0%nat] (categorias ejemplo)).
Proof.
  apply (urgentes_mostrar_y_vaciar "Trabajo" [0%nat] 2 ejemplo). reflexivity.
Defined.

(** ** Putting an urgent task on the queue *)

(** In any state of a run, a successful [agregarTareaUrgente] creates one
    task object with the counter's value as id and puts it at the tail of
    the category's urgent queue: [mostrarTareasUrgentes] then shows the
    tasks that were waiting, unchanged, followed by the new one.  Nothing is
    recorded on the histories, and no task list and no other queue
    changes. *)
Theorem agregarTareaUrgente_efecto (t d : string) (pr : Z) (f : datetime)
    (n : string) (m m1 : ManejadorTareas) (tarea : Tareas) :
  alcanzable m →
  agregarTareaUrgente t d pr f n m = (m1, Imprime (TareaUrgenteAnadida tarea)) →
  ∃ p,
    encontrarCategoria m None (Some n) = Some p ∧
    tarea = mkTareas (idTarea m) t d pr f ∧
    objetos m1 = objetos m ++ [tarea] ∧
    urgentes_de p (categorias m1)
      = urgentes_de p (categorias m) ++ [length (objetos m)] ∧
    mostrarTareasUrgentes n m1
      = (m1, Imprime (ListaTareasUrgentes n
                        ((leer (objetos m) <$> urgentes_de p (categorias m))
                         ++ [tarea]))) ∧
    (∀ q, tareas_de q (categorias m1) = tareas_de q (categorias m)) ∧
    (∀ q, q ≠ p →
       urgentes_de q (categorias m1) = urgentes_de q (categorias m)) ∧
    (historial_acciones m1, historial_deshacer m1, idCategoria m1)
      = (historial_acciones m, historial_deshacer m, idCategoria m) ∧
    idTarea m1 = idTarea m + 1.
Proof.
  intros Ha Hr.
  assert (∃ p, encontrarCategoria m None (Some n) = Some p) as [p Hp].
  { revert Hr. unfold agregarTareaUrgente.
    destruct (encontrarCategoria m None (Some n)); [by eexists|done]. }
  pose proof (vista_encolar n p _ _ (mkTareas 0 t d pr f) m
                (alcanzable_vista n p m Ha Hp)) as [[_ Hp1 Hq1 _] _].
  revert Hr Hp1 Hq1. unfold encolar. simpl paso. unfold agregarTareaUrgente.
  rewrite Hp. cbn [fst]. intros [= <- <-]. set (m1 := mkManejador _ _ _ _ _ _).
  intros Hp1 Hq1. exists p.
  destruct (encontrarCategoria_Some _ _ _ _ Hp) as (c & Hc & _).
  assert (urgentes_de p (categorias m1)
          = urgentes_de p (categorias m) ++ [length (objetos m)]) as Hcola
    by apply (urgentes_de_poner_urgentes _ _ _ _ Hc).
  split_and!; try done.
  - unfold mostrarTareasUrgentes. rewrite Hp1, Hq1, Hcola.
    by destruct (urgentes_de p (categorias m)).
  - intros q. apply tareas_de_poner_urgentes.
  - intros q Hq. by apply urgentes_de_poner_urgentes_otra.
Qed.

Lemma agregarTareaUrgente_efecto_witness :
  ∃ p,
    encontrarCategoria ejemplo None (Some "Trabajo") = Some p ∧
    mostrarTareasUrgentes "Trabajo"
      (agregarTareaUrgente "Aviso" "enviar" 3 739300 "Trabajo" ejemplo).1
    = ((agregarTareaUrgente "Aviso" "enviar" 3 739300 "Trabajo" ejemplo).1,
       Imprime (ListaTareasUrgentes "Trabajo"
                  ((leer (objetos ejemplo)
                      <$> urgentes_de p (categorias ejemplo))
                   ++ [mkTareas 5 "Aviso" "enviar" 3 739300]))).
Proof.
  destruct (agregarTareaUrgente_efecto "Aviso" "enviar" 3 739300 "Trabajo"
              ejemplo
              (agregarTareaUrgente "Aviso" "enviar" 3 739300 "Trabajo" ejemplo).1
              (mkTareas 5 "Aviso" "enviar" 3 739300))
    as (p & Hp & _ & _ & _ & H & _); [by exists escenario|reflexivity|].
  exists p. split; [exact Hp|exact H].
Defined.

(** ** The sorted listing *)

Lemma clave_le_antes objs a b :
  clave_le (clave (leer objs a)) (clave (leer objs b)) = true ↔ antes objs a b.
Proof.
  unfold clave_le, clave, antes. simpl.
  rewrite orb_true_iff, andb_true_iff, Z.ltb_lt, Z.eqb_eq, Z.leb_le. tauto.
Qed.

Lemma clave_le_false objs a b :
  clave_le (clave (leer objs a)) (clave (leer objs b)) = false →
  antes objs b a ∧ clave (leer objs a) ≠ clave (leer objs b).
Proof.
  intros H. assert (¬ antes objs a b) as Hn.
  { rewrite <- clave_le_antes. by rewrite H. }
  unfold antes, clave in *. split; [lia|]. intros [= H1 H2]. lia.
Qed.

Lemma antes_trans objs a b c : antes objs a b → antes objs b c → antes objs a c.
Proof. unfold antes. lia. Qed.

Lemma antes_antisim objs a b :
  antes objs a b → antes objs b a → clave (leer objs a) = clave (leer objs b).
Proof. unfold antes, clave. intros ??. f_equal; lia. Qed.

Lemma insertar_ordenado_perm objs r l : insertar_ordenado objs r l ≡ₚ r :: l.
Proof.
  induction l as [|x l IH]; simpl; [done|].
  destruct (clave_le _ _); [done|]. rewrite IH. apply Permutation_swap.
Qed.

Lemma ordenar_perm objs l : ordenar objs l ≡ₚ l.
Proof.
  induction l as [|x l IH]; simpl; [done|].
  by rewrite insertar_ordenado_perm, IH.
Qed.

Lemma insertar_ordenado_sorted objs r l :
  StronglySorted (antes objs) l →
  StronglySorted (antes objs) (insertar_ordenado objs r l).
Proof.
  induction 1 as [|x l Hl IH Hx]; simpl; [repeat constructor|].
  destruct (clave_le _ _) eqn:Hle.
  - apply clave_le_antes in Hle. constructor; [by constructor|].
    constructor; [done|]. eapply Forall_impl; [exact Hx|].
    intros y Hy. by eapply antes_trans.
  - apply clave_le_false in Hle as [Hle _]. constructor; [done|].
    rewrite insertar_ordenado_perm. by constructor.
Qed.

Lemma ordenar_sorted objs l : StronglySorted (antes objs) (ordenar objs l).
Proof.
  induction l as [|x l IH]; simpl; [constructor|].
  by apply insertar_ordenado_sorted.
Qed.

Lemma con_clave_insertar objs k r l :
  con_clave objs k (insertar_ordenado objs r l) = con_clave objs k (r :: l).
Proof.
  unfold con_clave. induction l as [|x l IH]; simpl; [done|].
  destruct (clave_le _ _) eqn:Hle; [done|].
  apply clave_le_false in Hle as [_ Hne].
  rewrite !filter_cons, IH, !filter_cons.
  repeat case_decide; congruence.
Qed.

Lemma ordenar_estable objs k l :
  con_clave objs k (ordenar objs l) = con_clave objs k l.
Proof.
  induction l as [|x l IH]; simpl; [done|].
  rewrite con_clave_insertar. unfold con_clave in *.
  by rewrite !filter_cons, IH.
Qed.

(** An ascending arrangement that keeps tasks of equal key in their order
    is determined by the tasks of each key. *)
Lemma orden_estable_unico objs l1 l2 :
  StronglySorted (antes objs) l1 →
  StronglySorted (antes objs) l2 →
  (∀ k, con_clave objs k l1 = con_clave objs k l2) →
  l1 = l2.
Proof.
  intros H1. revert l2. induction H1 as [|a l1 Hl1 IH Ha]; intros l2 H2 Hk.
  - destruct l2 as [|b l2]; [done|].
    specialize (Hk (clave (leer objs b))). unfold con_clave in Hk.
    rewrite filter_cons in Hk. by case_decide.
  - destruct H2 as [|b l2 Hl2 Hb].
    { specialize (Hk (clave (leer objs a))). unfold con_clave in Hk.
      rewrite filter_cons in Hk. by case_decide. }
    assert (clave (leer objs a) = clave (leer objs b)) as Hab.
    { assert (a ∈ b :: l2) as Hin2.
      { pose proof (Hk (clave (leer objs a))) as H. unfold con_clave in H.
        assert (a ∈ filter (λ r, clave (leer objs r) = clave (leer objs a))
                      (a :: l1)) as Hin
          by (apply list_elem_of_filter; split; [done|by left]).
        rewrite H in Hin. by apply list_elem_of_filter in Hin as [_ ?]. }
      assert (b ∈ a :: l1) as Hin1.
      { pose proof (Hk (clave (leer objs b))) as H. unfold con_clave in H.
        assert (b ∈ filter (λ r, clave (leer objs r) = clave (leer objs b))
                      (b :: l2)) as Hin
          by (apply list_elem_of_filter; split; [done|by left]).
        rewrite <- H in Hin. by apply list_elem_of_filter in Hin as [_ ?]. }
      apply elem_of_cons in Hin2 as [->|Hin2]; [done|].
      apply elem_of_cons in Hin1 as [->|Hin1]; [done|].
      rewrite Forall_forall in Ha, Hb.
      apply antes_antisim; auto. }
    pose proof (Hk (clave (leer objs a))) as Hka. unfold con_clave in Hka.
    rewrite !filter_cons in Hka. rewrite !decide_True in Hka by done.
    injection Hka as <- Hka. f_equal. apply IH; [done|]. intros k.
    destruct (decide (k = clave (leer objs a))) as [->|Hne]; [done|].
    specialize (Hk k). unfold con_clave in *. rewrite !filter_cons in Hk.
    by rewrite !decide_False in Hk by done.
Qed.

Lemma ordenar_unico objs l l' :
  StronglySorted (antes objs) l' →
  (∀ k, con_clave objs k l' = con_clave objs k l) →
  l' = ordenar objs l.
Proof.
  intros Hs Hk. apply (orden_estable_unico objs); [done|apply ordenar_sorted|].
  intros k. by rewrite ordenar_estable.
Qed.

(** [mostrarTareasOrdenadas] prints the tasks of the resolved category's
    own list (not those of its subcategories): all of them, each once,
    ascending by priority and then by due date, tasks with the same
    priority and date in the order of the list; this is the only
    arrangement with these properties.  On an empty list it reports that
    there are no tasks. *)
Theorem mostrarTareasOrdenadas_orden (n : string) (p : Ruta) (m : ManejadorTareas) :
  encontrarCategoria m None (Some n) = Some p →
  ∃ rs,
    mostrarTareasOrdenadas n m
      = match tareas_de p (categorias m) with
        | [] => NoHayTareasEnCategoria
        | _ :: _ => TareasOrdenadas (leer (objetos m) <$> rs)
        end ∧
    rs ≡ₚ tareas_de p (categorias m) ∧
    StronglySorted (antes (objetos m)) rs ∧
    (∀ k, con_clave (objetos m) k rs
          = con_clave (objetos m) k (tareas_de p (categorias m))) ∧
    (∀ rs', StronglySorted (antes (objetos m)) rs' →
            (∀ k, con_clave (objetos m) k rs'
                  = con_clave (objetos m) k (tareas_de p (categorias m))) →
            rs' = rs).
Proof.
  intros Hp. exists (ordenar (objetos m) (tareas_de p (categorias m))).
  split_and!.
  - unfold mostrarTareasOrdenadas. rewrite Hp.
    by destruct (tareas_de p (categorias m)).
  - apply ordenar_perm.
  - apply ordenar_sorted.
  - intros k. apply ordenar_estable.
  - intros rs'. apply ordenar_unico.
Qed.

Lemma mostrarTareasOrdenadas_orden_witness :
  ∃ rs,
    mostrarTareasOrdenadas "Trabajo" ejemplo
      = TareasOrdenadas (leer (objetos ejemplo) <$> rs) ∧
    rs ≡ₚ tareas_de [0%nat] (categorias ejemplo) ∧
    StronglySorted (antes (objetos ejemplo)) rs.
Proof.
  destruct (mostrarTareasOrdenadas_orden "Trabajo" [0%nat] ejemplo eq_refl)
    as (rs & H1 & H2 & H3 & _).
  exists rs. split; [exact H1|]. split; [exact H2|exact H3].
Defined.

(** ** The listing of the whole forest *)

Lemma mostrarSubcategoria_eq objs s nivel :
  mostrarSubcategoria objs s nivel =
  LSubcategoria (nivel * 2) (nombre s) ::
  mostrarTareas objs s (nivel + 1) ++ mostrarSubcategorias objs s (nivel + 1).
Proof.
  by destruct s.
Qed.

Lemma encabezados_LTarea s objs (l : list nat) :
  omap encabezado (LTarea s ∘ leer objs <$> l) = [].
Proof. induction l as [|x l IH]; [done|]. exact IH. Qed.

Lemma tareas_LTarea s objs (l : list nat) :
  omap tarea_mostrada (LTarea s ∘ leer objs <$> l) = leer objs <$> l.
Proof.
  induction l as [|x l IH]; [done|]. simpl. f_equal. exact IH.
Qed.

Lemma encabezados_mostrarTareas objs c nivel :
  omap encabezado (mostrarTareas objs c nivel) = [].
Proof.
  unfold mostrarTareas. destruct (tareas c) as [|t l]; [done|].
  change (omap encabezado (LTareasEn (nivel * 2) (nombre c) :: ?x))
    with (omap encabezado x).
  apply encabezados_LTarea.
Qed.

Lemma tareas_mostrarTareas objs c nivel :
  omap tarea_mostrada (mostrarTareas objs c nivel) = leer objs <$> tareas c.
Proof.
  unfold mostrarTareas. destruct (tareas c) as [|t l]; [done|].
  change (omap tarea_mostrada (LTareasEn (nivel * 2) (nombre c) :: ?x))
    with (omap tarea_mostrada x).
  apply tareas_LTarea.
Qed.

Lemma encabezados_lista objs subs nivel k :
  Forall (λ s, ∀ nivel,
            omap encabezado (mostrarSubcategoria objs s nivel)
            = (λ rc, ((nivel + length rc.1) * 2, nombre rc.2)%nat)
                <$> preorden_cat s) subs →
  omap encabezado (subs ≫= λ s, mostrarSubcategoria objs s (S nivel))
    = (λ rc, ((nivel + length rc.1) * 2, nombre rc.2)%nat)
        <$> preorden_lista subs k.
Proof.
  intros H. revert k. induction H as [|s subs Hs _ IH]; intros k; [done|].
  cbn [mbind list_bind preorden_lista].
  rewrite omap_app, fmap_app, Hs, (IH (S k)). f_equal.
  rewrite <- list_fmap_compose.
  apply list_fmap_ext. intros j [r c] _. simpl. f_equal. lia.
Qed.

Lemma encabezados_mostrarSubcategoria objs c nivel :
  omap encabezado (mostrarSubcategoria objs c nivel)
    = (λ rc, ((nivel + length rc.1) * 2, nombre rc.2)%nat) <$> preorden_cat c.
Proof.
  revert nivel. induction c as [i n subs u t IH] using Categoria_ind.
  intros nivel. rewrite mostrarSubcategoria_eq, preorden_cat_eq.
  cbn [omap list_omap encabezado fmap list_fmap fst snd length].
  rewrite Nat.add_0_r. f_equal.
  rewrite omap_app, encabezados_mostrarTareas, app_nil_l.
  unfold mostrarSubcategorias. rewrite Nat.add_1_r.
  by apply encabezados_lista.
Qed.

Lemma tareas_lista objs subs nivel k :
  Forall (λ s, ∀ nivel,
            omap tarea_mostrada (mostrarSubcategoria objs s nivel)
            = leer objs <$> ((preorden_cat s).*2 ≫= tareas)) subs →
  omap tarea_mostrada (subs ≫= λ s, mostrarSubcategoria objs s nivel)
    = leer objs <$> ((preorden_lista subs k).*2 ≫= tareas).
Proof.
  intros H. revert k. induction H as [|s subs Hs _ IH]; intros k; [done|].
  cbn [mbind list_bind preorden_lista].
  rewrite omap_app, fmap_app, bind_app, fmap_app, Hs, (IH (S k)).
  do 3 f_equal. rewrite <- list_fmap_compose. by apply list_fmap_ext.
Qed.

Lemma tareas_mostrarSubcategoria objs c nivel :
  omap tarea_mostrada (mostrarSubcategoria objs c nivel)
    = leer objs <$> ((preorden_cat c).*2 ≫= tareas).
Proof.
  revert nivel. induction c as [i n subs u t IH] using Categoria_ind.
  intros nivel. rewrite mostrarSubcategoria_eq, preorden_cat_eq.
  cbn [omap list_omap tarea_mostrada fmap list_fmap snd mbind list_bind].
  rewrite omap_app, tareas_mostrarTareas, fmap_app. f_equal.
  by apply tareas_lista.
Qed.

Lemma encabezados_raices objs cs k :
  omap encabezado
    (cs ≫= λ categoria,
       LCategoria (nombre categoria) ::
       mostrarTareas objs categoria 0 ++ mostrarSubcategorias objs categoria 1)
    = (λ rc, ((length rc.1 - 1) * 2, nombre rc.2)%nat) <$> preorden_lista cs k.
Proof.
  revert k. induction cs as [|c cs IH]; intros k; [done|].
  cbn [mbind list_bind preorden_lista].
  rewrite omap_app, fmap_app, (IH (S k)). f_equal.
  rewrite preorden_cat_eq.
  cbn [omap list_omap encabezado fmap list_fmap fst snd length prefijo].
  f_equal. rewrite omap_app, encabezados_mostrarTareas, app_nil_l.
  unfold mostrarSubcategorias.
  rewrite (encabezados_lista objs (subcategorias c) 0 0).
  - rewrite <- !list_fmap_compose.
    apply list_fmap_ext. intros ? [r c'] _. simpl. f_equal. lia.
  - apply Forall_forall. intros. apply encabezados_mostrarSubcategoria.
Qed.

Lemma tareas_raices objs cs k :
  omap tarea_mostrada
    (cs ≫= λ categoria,
       LCategoria (nombre categoria) ::
       mostrarTareas objs categoria 0 ++ mostrarSubcategorias objs categoria 1)
    = leer objs <$> ((preorden_lista cs k).*2 ≫= tareas).
Proof.
  revert k. induction cs as [|c cs IH]; intros k; [done|].
  cbn [mbind list_bind preorden_lista].
  rewrite omap_app, fmap_app, bind_app, fmap_app, (IH (S k)). f_equal.
  rewrite preorden_cat_eq.
  cbn [omap list_omap tarea_mostrada fmap list_fmap snd prefijo mbind
       list_bind].
  rewrite omap_app, tareas_mostrarTareas, fmap_app. f_equal.
  unfold mostrarSubcategorias.
  rewrite (tareas_lista objs (subcategorias c) 1 0).
  - do 2 f_equal. rewrite <- !list_fmap_compose. by apply list_fmap_ext.
  - apply Forall_forall. intros. apply tareas_mostrarSubcategoria.
Qed.

(** [mostrarCategorias] walks the forest in depth-first pre-order.  Its
    heading lines are the names of all categories in that order, a root at
    the margin and a subcategory indented by two spaces per level; its task
    lines are the tasks of every category, category by category in the same
    order and in the order of each list.  On an empty forest it prints the
    single line that there are no categories. *)
Theorem mostrarCategorias_preorden (m : ManejadorTareas) :
  omap encabezado (mostrarCategorias m)
    = (λ rc, ((length rc.1 - 1) * 2, nombre rc.2)%nat)
        <$> preorden (categorias m) ∧
  omap tarea_mostrada (mostrarCategorias m)
    = leer (objetos m) <$> (nodos (categorias m) ≫= tareas) ∧
  (categorias m = [] ↔ mostrarCategorias m = [LNoHayCategorias]).
Proof.
  unfold mostrarCategorias, nodos, preorden.
  destruct (categorias m) as [|c0 cs0] eqn:Hcs; [by split_and!|].
  rewrite <- Hcs. split_and!.
  - apply encabezados_raices.
  - apply tareas_raices.
  - by rewrite Hcs.
Qed.

(** ** [deshacer] never raises in a run *)



























(** ** Task objects are never destroyed or renumbered *)

(** Every operation keeps every task object in the store with its id, the
    removed and the processed ones included.  The other fields of an object
    change only in [modificarTarea], [deshacer] and [rehacer]. *)
Theorem tarea_persiste (op : Operacion) (m : ManejadorTareas) (r : ref)
    (t : Tareas) :
  objetos m !! r = Some t →
  ∃ t', objetos (paso op m).1 !! r = Some t' ∧
        tarea_id t' = tarea_id t ∧
        (t' = t ∨ es_historial op ∨
         ∃ i ti d pr f n, op = OpModificarTarea i ti d pr f n).
Proof.
  intros Hr.
  assert (r < length (objetos m))%nat as Hlt by (by eapply lookup_lt_Some).
  assert (∀ o dst, ∃ t', copiar_campos o dst (objetos m) !! r = Some t' ∧
                         tarea_id t' = tarea_id t) as Hcopia.
  { intros o dst. pose proof (tarea_id_copiar_campos o dst (objetos m) r) as H.
    rewrite Hr in H. destruct (copiar_campos o dst (objetos m) !! r) as [t'|];
      [|done]. injection H as H. by exists t'. }
  destruct op; simpl paso; abrir_paso;
    try (exists t; split_and!; [done|done|by left]);
    try (exists t; split_and!; [by apply lookup_app_l_Some|done|by left]).
  - destruct (decide (r = n)) as [->|Hne].
    + eexists. rewrite list_lookup_alter_eq, (lookup_app_l_Some _ _ _ _ Hr).
      split_and!; [done|done|]. right; right. by eexists _, _, _, _, _, _.
    + exists t. rewrite list_lookup_alter_ne by done.
      split_and!; [by apply lookup_app_l_Some|done|by left].
  - destruct (Hcopia tarea_anterior tarea_modificada) as (t' & H1 & H2).
    exists t'. split_and!; [done|done|]. right; left. by left.
  - destruct (Hcopia tarea_anterior tarea_modificada) as (t' & H1 & H2).
    exists t'. split_and!; [done|done|]. right; left. by right.
Qed.

Lemma tarea_persiste_witness :
  ∃ t', objetos (paso (OpEliminarTarea 1 "Trabajo") ejemplo).1 !! 0%nat = Some t' ∧
        tarea_id t' = 1.
Proof.
  destruct (tarea_persiste (OpEliminarTarea 1 "Trabajo") ejemplo 0%nat
              (mkTareas 1 "Informe" "anual" 1 741000) eq_refl)
    as (t' & H1 & H2 & _).
  exists t'. split; [exact H1|exact H2].
Defined.

(** ** Adding a task *)

(** A successful [agregarTarea] creates one task object with the counter's
    value as id and the given field values, puts it at the end of the task
    list of the category the name resolves to, and pushes one ['agregar']
    record for it.  No other task list, no urgent queue, no existing object
    and no category counter changes. *)
Theorem agregarTarea_efecto (t d : string) (pr : Z) (f : datetime) (n : string)
    (m m1 : ManejadorTareas) :
  agregarTarea t d pr f n m = (m1, Imprime (TareaAgregada t n)) →
  ∃ p,
    encontrarCategoria m None (Some n) = Some p ∧
    objetos m1 = objetos m ++ [mkTareas (idTarea m) t d pr f] ∧
    tareas_de p (categorias m1)
      = tareas_de p (categorias m) ++ [length (objetos m)] ∧
    (∀ q, q ≠ p → tareas_de q (categorias m1) = tareas_de q (categorias m)) ∧
    (∀ q, urgentes_de q (categorias m1) = urgentes_de q (categorias m)) ∧
    historial_acciones m1 = agregar (length (objetos m)) p :: historial_acciones m ∧
    (historial_deshacer m1, idCategoria m1) = (historial_deshacer m, idCategoria m) ∧
    idTarea m1 = idTarea m + 1.
Proof.
  unfold agregarTarea.
  destruct (encontrarCategoria m None (Some n)) as [p|] eqn:Hp; [|done].
  intros [= <-]. exists p. apply encontrarCategoria_Some in Hp as (c & Hc & _).
  cbn [objetos categorias idCategoria idTarea historial_acciones
       historial_deshacer].
  split_and!; try done.
  - apply (tareas_de_poner_tareas _ _ _ _ Hc).
  - intros q Hq. by apply tareas_de_poner_tareas_otra.
  - intros q. apply urgentes_de_poner_tareas.
Qed.

Lemma agregarTarea_efecto_witness :
  ∃ p,
    encontrarCategoria ejemplo None (Some "Urgente") = Some p ∧
    objetos (agregarTarea "Acta" "reunion" 2 739300 "Urgente" ejemplo).1
      = objetos ejemplo ++ [mkTareas 5 "Acta" "reunion" 2 739300] ∧
    tareas_de p (categorias (agregarTarea "Acta" "reunion" 2 739300 "Urgente" ejemplo).1)
      = tareas_de p (categorias ejemplo) ++ [length (objetos ejemplo)].
Proof.
  destruct (agregarTarea_efecto "Acta" "reunion" 2 739300 "Urgente" ejemplo
              (agregarTarea "Acta" "reunion" 2 739300 "Urgente" ejemplo).1
              eq_refl)
    as (p & Hp & H1 & H2 & _).
  exists p. split; [exact Hp|]. split; [exact H1|exact H2].
Defined.

(** ** Undoing a modification *)

(** After a successful [modificarTarea], an immediate [deshacer] succeeds
    and gives the task object back the title, description, priority and due
    date it had, with its id; the forest is as it was before the
    modification. *)
Theorem modificar_deshacer (i : Z) (t d : string) (pr : Z) (f : datetime)
    (n : string) (m m1 : ManejadorTareas) :
  modificarTarea i t d pr f n m = (m1, Imprime (TareaModificada t)) →
  ∃ r v,
    objetos m !! r = Some v ∧ tarea_id v = i ∧
    objetos m1 !! r = Some (mkTareas i t d pr f) ∧
    (deshacer m1).2 = Imprime AccionDeshecha ∧
    objetos (deshacer m1).1 !! r = Some v ∧
    categorias (deshacer m1).1 = categorias m.
Proof.
  intros H.
  destruct (modificar_deshacer_rehacer _ _ _ _ _ _ _ _ H)
    as (p & r & v & _ & _ & Hv & Hi & H1 & H2 & H3 & _).
  exists r, v. split_and!; try done.
  revert H. unfold modificarTarea.
  destruct (encontrarCategoria m None (Some n)); [|done].
  destruct (buscarTarea _ _ i); [|done]. by intros [= <-].
Qed.

Lemma modificar_deshacer_witness :
  ∃ r v,
    objetos ejemplo !! r = Some v ∧
    objetos (modificarTarea 2 "Carta" "enviar" 2 739500 "Trabajo" ejemplo).1 !! r
      = Some (mkTareas 2 "Carta" "enviar" 2 739500) ∧
    objetos
      (deshacer (modificarTarea 2 "Carta" "enviar" 2 739500 "Trabajo" ejemplo).1).1
      !! r = Some v.
Proof.
  destruct (modificar_deshacer 2 "Carta" "enviar" 2 739500 "Trabajo" ejemplo
              (modificarTarea 2 "Carta" "enviar" 2 739500 "Trabajo" ejemplo).1
              eq_refl)
    as (r & v & Hv & _ & H1 & _ & H2 & _).
  exists r, v. split_and!; [exact Hv|exact H1|exact H2].
Defined.

(** ** Names in the whole forest *)

Lemma nombres_agregarSubcategoria i n p cs c :
  obtener p cs = Some c →
  nombres (actualizar (Categoria_agregarSubcategoria i n) p cs)
    ≡ₚ n :: nombres cs.
Proof.
  unfold nombres. revert cs.
  induction p as [|k p IH]; intros cs; [done|].
  cbn [actualizar obtener]. destruct (cs !! k) as [c0|] eqn:Hk; [|done].
  intros Hp.
  match goal with |- context [<[k:=?x]> cs] =>
    destruct (nodos_insert cs k c0 x Hk) as [-> ->] end.
  rewrite !fmap_app, !fmap_cons, !fmap_app.
  destruct p as [|k' p].
  - unfold Categoria_agregarSubcategoria. cbn [subcategorias con_subcategorias
                                                 nombre].
    rewrite nodos_app, fmap_app, nodos_cons. simpl.
    rewrite (Permutation_cons_append _ n). solve_Permutation.
  - cbn [subcategorias con_subcategorias nombre].
    rewrite (IH _ Hp). solve_Permutation.
Qed.

(** What one step does to the names of the forest: nothing, or one more
    name, which is in use already exactly when the step reuses a name. *)
Lemma nombres_paso op m :
  (nombres (categorias (paso op m).1) ≡ₚ nombres (categorias m) ∧
   reusa_nombre op m = false) ∨
  (∃ n, nombres (categorias (paso op m).1) ≡ₚ n :: nombres (categorias m) ∧
        (reusa_nombre op m = true ↔ n ∈ nombres (categorias m))).
Proof.
  destruct op as [n|n np| | | | | | | |]; simpl paso;
    try (left; split; [|done]; abrir_paso; unfold poner_tareas, poner_urgentes;
         try done; unfold nombres; by rewrite nodos_actualizar_proy).
  - unfold agregarCategoria.
    destruct (encontrarCategoria m None (Some n)) eqn:He; [by left|].
    apply encontrarCategoria_nombre_None in He. right. exists n. split.
    + cbn [fst categorias]. unfold nombres.
      rewrite nodos_app, fmap_app, nodos_cons. simpl.
      symmetry. apply Permutation_cons_append.
    + by split.
  - unfold agregarSubcategoria, reusa_nombre.
    destruct (encontrarCategoria m None (Some np)) as [p|] eqn:He; [|by left].
    apply encontrarCategoria_Some in He as (c & Hc & _).
    right. exists n. split.
    + cbn [fst categorias]. by apply nombres_agregarSubcategoria with c.
    + apply bool_decide_eq_true.
Qed.

Lemma sin_repetir_paso op m :
  NoDup (nombres (categorias m)) →
  NoDup (nombres (categorias (paso op m).1)) ↔ reusa_nombre op m = false.
Proof.
  intros Hnd. destruct (nombres_paso op m) as [[-> ->]|(n & -> & Hn)]; [done|].
  rewrite NoDup_cons, <- Hn. destruct (reusa_nombre op m); split; try done.
  by intros [? _].
Qed.

Lemma repetido_persiste_paso op m :
  NoDup (nombres (categorias (paso op m).1)) → NoDup (nombres (categorias m)).
Proof.
  destruct (nombres_paso op m) as [[-> _]|(n & -> & _)]; [done|].
  by intros [_ ?]%NoDup_cons.
Qed.

Lemma repetido_persiste_estado ops m :
  NoDup (nombres (categorias (estado ops m))) → NoDup (nombres (categorias m)).
Proof.
  revert m. induction ops as [|op ops IH]; intros m; [done|].
  rewrite estado_cons. intros H%IH. by eapply repetido_persiste_paso.
Qed.

Lemma sin_repetir_estado ops m :
  NoDup (nombres (categorias m)) →
  NoDup (nombres (categorias (estado ops m))) ↔ sin_reusos ops m = true.
Proof.
  revert m. induction ops as [|op ops IH]; intros m Hnd; [done|].
  rewrite estado_cons. cbn [sin_reusos].
  pose proof (sin_repetir_paso op m Hnd) as Hp.
  destruct (reusa_nombre op m); cbn [negb andb].
  - split; [|done]. intros H%repetido_persiste_estado. by apply Hp in H.
  - apply IH. by apply Hp.
Qed.

(** C3, as the code has it.  In every run, no two categories of the whole
    forest have the same name exactly when no [agregarSubcategoria] of the
    run found its parent and was given a name that was already in use.
    From a forest without repeated names, every operation leaves a forest
    without repeated names, except such an [agregarSubcategoria], which
    leaves a repeated name.  The root categories never share a name.
    [agregarCategoria] accepts a name exactly when no category of the whole
    forest bears it; [agregarSubcategoria] looks up the parent only and
    accepts any name for the new subcategory. *)
Theorem nombres_de_categorias (ops : list Operacion) :
  (NoDup (nombres (categorias (estado ops inicial)))
     ↔ sin_reusos ops inicial = true) ∧
  (∀ op, NoDup (nombres (categorias (estado ops inicial))) →
     (NoDup (nombres (categorias (paso op (estado ops inicial)).1))
        ↔ reusa_nombre op (estado ops inicial) = false)) ∧
  NoDup (nombres_raices (categorias (estado ops inicial))) ∧
  (∀ n, (agregarCategoria n (estado ops inicial)).2 = Imprime (CategoriaAgregada n)
        ↔ n ∉ nombres (categorias (estado ops inicial))) ∧
  (∀ n np, (agregarSubcategoria n np (estado ops inicial)).2
             = Imprime (SubcategoriaAgregada n np)
           ↔ np ∈ nombres (categorias (estado ops inicial))).
Proof.
  split_and!.
  - apply sin_repetir_estado. constructor.
  - intros op. apply sin_repetir_paso.
  - apply raices_sin_repetir_estado. constructor.
  - intros n. rewrite <- encontrarCategoria_nombre_None. unfold agregarCategoria.
    by destruct (encontrarCategoria _ None (Some n)).
  - intros n np. unfold agregarSubcategoria.
    destruct (encontrarCategoria _ None (Some np)) eqn:He.
    + split; [intros _|done].
      destruct (decide (np ∈ nombres (categorias (estado ops inicial))))
        as [|Hn]; [done|].
      apply encontrarCategoria_nombre_None in Hn. congruence.
    + split; [done|]. by apply encontrarCategoria_nombre_None in He.
Qed.

Lemma nombres_de_categorias_witness :
  NoDup (nombres (categorias
           (estado (escenario ++ [OpAgregarSubcategoria "Hoy" "Urgente";
                                   OpAgregarCategoria "Casa";
                                   OpAgregarSubcategoria "Cocina" "Casa"])
              inicial))) ∧
  ¬ NoDup (nombres (categorias
             (paso (OpAgregarSubcategoria "Trabajo" "Urgente") ejemplo).1)).
Proof.
  split.
  - destruct (nombres_de_categorias
                (escenario ++ [OpAgregarSubcategoria "Hoy" "Urgente";
                               OpAgregarCategoria "Casa";
                               OpAgregarSubcategoria "Cocina" "Casa"]))
      as [H _].
    apply H. reflexivity.
  - destruct (nombres_de_categorias escenario) as (H0 & H & _).
    intros Hnd. apply H in Hnd; [discriminate Hnd|].
    apply H0. reflexivity.
Defined.
